(** * Data checks of the city-bike analysis: a model of [checks.py] and
      of the [DataSource] runner of [solution.py]

    The Python classes are embedded shallowly.  A pandas [DataFrame] is an
    ordered association list of named [Series]; every [apply] method is a
    computation in a small state-and-exception monad whose state holds the
    instance attribute [_found_issues] of the check and the data frame.
    Check objects live in a store indexed by object identity, because the
    runner keeps references to them and Python compares them by identity. *)

From Stdlib Require Import ZArith Ascii DecimalString.
From stdpp Require Import gmap strings list fin_maps.

Local Open Scope Z_scope.

(** ** Cell values, dtypes and timestamps *)

(** A cell of a column, or an element of a list given to a check: an
    integer, a text, [None], or a float NaN.  Python tells NaN objects apart
    by identity only: [VNaN (Some o)] is the float object [o], which a list
    and an [object] column can both hold; [VNaN None] is a NaN that shares
    its identity with nothing else, such as a cell of a [float64] column,
    which is boxed afresh each time it is read. *)
Inductive value :=
| VInt (z : Z)
| VStr (s : string)
| VNone
| VNaN (obj : option nat).

Global Instance value_eq_dec : EqDecision value.
Proof. solve_decision. Defined.

Global Instance value_countable : Countable value.
Proof.
  refine (inj_countable'
    (fun v => match v with
              | VInt z => inl (inl z)
              | VStr s => inl (inr s)
              | VNone => inr None
              | VNaN o => inr (Some o)
              end)
    (fun x => match x with
              | inl (inl z) => VInt z
              | inl (inr s) => VStr s
              | inr None => VNone
              | inr (Some o) => VNaN o
              end) _).
  by intros [].
Defined.

(** [x is y or x == y], the test behind [in] on lists and behind [set.add]:
    NaN equals nothing, itself included, so a NaN is found only where the
    very same object is held. *)
Definition py_same (x y : value) : bool :=
  match x, y with
  | VNaN (Some a), VNaN (Some b) => bool_decide (a = b)
  | VNaN _, _ | _, VNaN _ => false
  | _, _ => bool_decide (x = y)
  end.

(** [item in l] *)
Definition py_in (item : value) (l : list value) : bool := existsb (py_same item) l.

(** [s.add(item)] on a set kept as the list of its elements, in the order
    they came in (Python promises no order). *)
Definition py_set_add (s : list value) (item : value) : list value :=
  if py_in item s then s else s ++ [item].

(** pandas' missing values: [None] and NaN. *)
Definition is_missing (v : value) : bool :=
  match v with VNone | VNaN _ => true | _ => false end.

(** What pandas' hash tables compare: all NaN count as one value, distinct
    from [None]. *)
Definition hash_key (v : value) : value :=
  match v with VNaN _ => VNaN None | _ => v end.

Inductive Dtype := int64 | float64 | object_ | bool_ | datetime64.

Global Instance Dtype_eq_dec : EqDecision Dtype.
Proof. solve_decision. Defined.

Global Instance Dtype_countable : Countable Dtype.
Proof.
  refine (inj_countable'
    (fun d => match d with
              | int64 => 0%nat | float64 => 1%nat | object_ => 2%nat
              | bool_ => 3%nat | datetime64 => 4%nat
              end)
    (fun n => match n with
              | O => int64 | 1%nat => float64 | 2%nat => object_
              | 3%nat => bool_ | _ => datetime64
              end) _).
  by intros [].
Defined.

(** A naive (timezone-free) calendar timestamp, as [pd.Timestamp] holds it. *)
Record Timestamp := mkTimestamp {
  year : nat; month : nat; day : nat;
  hour : nat; minute : nat; second : nat;
  nanosecond : N
}.

Global Instance Timestamp_eq_dec : EqDecision Timestamp.
Proof. solve_decision. Defined.

Definition leap_year (y : nat) : bool :=
  ((y mod 4 =? 0) && negb (y mod 100 =? 0) || (y mod 400 =? 0))%nat.

Definition days_in_month (y m : nat) : nat :=
  match m with
  | 1 | 3 | 5 | 7 | 8 | 10 | 12 => 31
  | 4 | 6 | 9 | 11 => 30
  | 2 => if leap_year y then 29 else 28
  | _ => 0
  end%nat.

(** The timestamps whose [strftime] output has the shape
    [YYYY-MM-DD HH:MM:SS]: a four-digit year and calendar-valid fields. *)
Definition valid_ts (t : Timestamp) : bool :=
  (1000 <=? N.of_nat (year t))%N && (N.of_nat (year t) <=? 9999)%N &&
  ((1 <=? month t) && (month t <=? 12) &&
   (1 <=? day t) && (day t <=? days_in_month (year t) (month t)) &&
   (hour t <? 24) && (minute t <? 60) && (second t <? 60))%nat &&
  (nanosecond t <? 1000000000)%N.

(** [strftime] drops the sub-second part. *)
Definition whole_second (t : Timestamp) : Timestamp :=
  mkTimestamp (year t) (month t) (day t) (hour t) (minute t) (second t) 0.

(** Chronological order, used by [self._current_time < pd.to_datetime(item)]. *)
Fixpoint lex_lt (a b : list N) : bool :=
  match a, b with
  | x :: a', y :: b' => ((x <? y) || ((x =? y) && lex_lt a' b'))%N
  | _, _ => false
  end.

Definition ts_fields (t : Timestamp) : list N :=
  (N.of_nat <$> [year t; month t; day t; hour t; minute t; second t])
  ++ [nanosecond t].

Definition ts_lt (a b : Timestamp) : bool := lex_lt (ts_fields a) (ts_fields b).

(** *** [strftime('%Y-%m-%d %X')]

    [%X] is the locale's time representation; in the C and en_US locales it
    is [%H:%M:%S], which is what is modelled here. *)
Definition digit (d : nat) : ascii := ascii_of_nat (48 + d).

Definition pad2 (n : nat) : string :=
  String (digit (n / 10)) (String (digit (n mod 10)) EmptyString).

Definition pad4 (n : nat) : string :=
  String (digit (n / 1000)) (String (digit (n / 100 mod 10))
    (String (digit (n / 10 mod 10)) (String (digit (n mod 10)) EmptyString))).

Definition strftime (t : Timestamp) : string :=
  pad4 (year t) +:+ "-" +:+ pad2 (month t) +:+ "-" +:+ pad2 (day t) +:+ " " +:+
  pad2 (hour t) +:+ ":" +:+ pad2 (minute t) +:+ ":" +:+ pad2 (second t).

(** *** Reading the canonical form back

    The ISO 8601 reader for exactly the shape [YYYY-MM-DD HH:MM:SS]. *)
Definition digit_val (c : ascii) : option nat :=
  let n := nat_of_ascii c in
  if ((48 <=? n) && (n <=? 57))%nat then Some (n - 48)%nat else None.

Definition read_digit (s : string) : option (nat * string) :=
  match s with
  | String c rest => d ← digit_val c; Some (d, rest)
  | EmptyString => None
  end.

Definition read2 (s : string) : option (nat * string) :=
  '(a, s1) ← read_digit s;
  '(b, s2) ← read_digit s1;
  Some (10 * a + b, s2)%nat.

Definition read4 (s : string) : option (nat * string) :=
  '(a, s1) ← read2 s;
  '(b, s2) ← read2 s1;
  Some (100 * a + b, s2)%nat.

Definition expect (c : ascii) (s : string) : option string :=
  match s with
  | String c' rest => if decide (c = c') then Some rest else None
  | EmptyString => None
  end.

Definition parse_iso (s : string) : option Timestamp :=
  '(y, s) ← read4 s; s ← expect "-"%char s;
  '(mo, s) ← read2 s; s ← expect "-"%char s;
  '(d, s) ← read2 s; s ← expect " "%char s;
  '(h, s) ← read2 s; s ← expect ":"%char s;
  '(mi, s) ← read2 s; s ← expect ":"%char s;
  '(se, s) ← read2 s;
  match s with
  | EmptyString =>
      let t := mkTimestamp y mo d h mi se 0 in
      if valid_ts t then Some t else None
  | _ => None
  end.

(** What [pd.Timestamp(x)] and [pd.to_datetime(x)] can give for a cell:
    a naive timestamp, a timestamp with a time zone (its fields are the wall
    clock ones), the missing timestamp [NaT], or a parse failure. *)
Inductive DateRes :=
| Parsed (t : Timestamp)
| Aware (t : Timestamp)
| NaT
| Unparseable.

(** pandas' date reader is outside the repository; the model takes it as a
    parameter. *)
Record PandasDates := {
  pd_Timestamp : value -> DateRes;
  pd_to_datetime : value -> DateRes
}.

(** The only fact about the reader that the development relies on (and only
    for the idempotence of the normalisation): a text in canonical form
    denotes the timestamp its digits spell. *)
Definition reads_iso (pd : PandasDates) : Prop :=
  forall s t, parse_iso s = Some t -> pd_Timestamp pd (VStr s) = Parsed t.

(** ** Series and data frames *)

(** A column: its dtype and its cells, in storage order.  Only an [object]
    column holds Python objects; the NaN cells of a column of another dtype
    are [VNaN None]. *)
Record Series := mkSeries {
  dtype : Dtype;
  values : list value
}.

Global Instance Series_eq_dec : EqDecision Series.
Proof. solve_decision. Defined.

(** A data frame: the length of its index and its columns, in order.
    [wf_DataFrame] is pandas' invariant that every column spans the index
    (column labels are taken to be distinct). *)
Record DataFrame := mkDataFrame {
  index_len : nat;
  columns : list (string * Series)
}.

Global Instance DataFrame_eq_dec : EqDecision DataFrame.
Proof. solve_decision. Defined.

Definition column_names (df : DataFrame) : list string := (columns df).*1.

Definition wf_DataFrame (df : DataFrame) : Prop :=
  NoDup (column_names df) /\
  Forall (fun c => length (values c.2) = index_len df) (columns df).

Fixpoint assoc_lookup (col : string) (cs : list (string * Series)) : option Series :=
  match cs with
  | [] => None
  | (name, s) :: rest => if decide (name = col) then Some s else assoc_lookup col rest
  end.

(** [df[col] = s] on the column list: the column keeps its place when it
    exists and is appended otherwise. *)
Fixpoint assoc_set (col : string) (s : Series) (cs : list (string * Series))
  : list (string * Series) :=
  match cs with
  | [] => [(col, s)]
  | (name, s0) :: rest =>
      if decide (name = col) then (name, s) :: rest
      else (name, s0) :: assoc_set col s rest
  end.

(** ** Exceptions *)

(** The arguments a check passes to the exception it raises, after the
    message. *)
Inductive Payload :=
| PList (cols : list string)
| PDict (m : gmap string value)
| PDictSet (m : gmap string (list value))
| PColSet (cols : gset string)
| PTypeSet (types : gset Dtype).

Inductive exn :=
| DataException (msg : string) (args : Payload)
| ValidDataException (msg : string) (args : Payload)
| ValueError (msg : string)
| KeyError (col : string)
| TypeError
| ParserError (raw : value)
| NotImplementedError.

(** [class ValidDataException(DataException)]: the exceptions an
    [except DataException] clause would catch. *)
Definition is_DataException (e : exn) : bool :=
  match e with
  | DataException _ _ | ValidDataException _ _ => true
  | _ => false
  end.

Inductive Res (A : Type) :=
| Val (a : A)
| Exc (e : exn).
Arguments Val {A} a.
Arguments Exc {A} e.

(** ** The monad of [apply] bodies

    The state is what a call of [apply] can change: the accumulator
    attribute [self._found_issues] (of type [F], [unit] for the classes
    without one) and the data frame. *)
Record St (F : Type) := mkSt {
  issues : F;
  frame : DataFrame
}.
Arguments mkSt {F} issues frame.
Arguments issues {F} s.
Arguments frame {F} s.

Definition M (F A : Type) : Type := St F -> St F * Res A.

Definition ret {F A} (a : A) : M F A := fun st => (st, Val a).

Definition bind {F A B} (m : M F A) (k : A -> M F B) : M F B :=
  fun st =>
    match m st with
    | (st', Val a) => k a st'
    | (st', Exc e) => (st', Exc e)
    end.

Definition raise {F A} (e : exn) : M F A := fun st => (st, Exc e).

Notation "'do' x <- m ; k" := (bind m (fun x => k))
  (at level 10, x name, m at level 100, k at level 200,
   format "'[v' 'do'  x  <-  m ; '/' k ']'").
Notation "m ;; k" := (bind m (fun _ => k))
  (at level 100, k at level 200, right associativity).

(** [data_source[col]] *)
Definition getitem {F} (col : string) : M F Series :=
  fun st =>
    match assoc_lookup col (columns (frame st)) with
    | Some s => (st, Val s)
    | None => (st, Exc (KeyError col))
    end.

(** [data_source[col] = s] *)
Definition setitem {F} (col : string) (s : Series) : M F unit :=
  fun st =>
    (mkSt (issues st)
       (mkDataFrame (index_len (frame st)) (assoc_set col s (columns (frame st)))),
     Val tt).

(** [data_source.columns] *)
Definition get_columns {F} : M F (list string) :=
  fun st => (st, Val (column_names (frame st))).

Definition get_issues {F} : M F F := fun st => (st, Val (issues st)).

Definition modify_issues {F} (f : F -> F) : M F unit :=
  fun st => (mkSt (f (issues st)) (frame st), Val tt).

(** [for x in xs: body(x)] *)
Fixpoint for_each {F A} (xs : list A) (body : A -> M F unit) : M F unit :=
  match xs with
  | [] => ret tt
  | x :: rest => body x ;; for_each rest body
  end.

(** A [for] loop that updates a local variable of the method. *)
Fixpoint for_acc {F A B} (xs : list A) (acc : B) (body : B -> A -> M F B) : M F B :=
  match xs with
  | [] => ret acc
  | x :: rest => do acc' <- body acc x; for_acc rest acc' body
  end.

(** [Series.apply(f)]: [f] is called on the cells in storage order; its
    results form the new column. *)
Fixpoint map_cells {F} (f : value -> M F value) (vs : list value) : M F (list value) :=
  match vs with
  | [] => ret []
  | v :: rest => do v' <- f v; do rest' <- map_cells f rest; ret (v' :: rest')
  end.

(** The dtype pandas infers for the column [Series.apply] builds: an empty
    column keeps its dtype, a column of integers is [int64], anything else
    (texts, [None]) is [object]. *)
Definition is_int (v : value) : bool :=
  match v with VInt _ => true | _ => false end.

Definition infer_dtype (old : Dtype) (vs : list value) : Dtype :=
  match vs with
  | [] => old
  | _ => if forallb is_int vs then int64 else object_
  end.

Definition Series_apply {F} (f : value -> M F value) (s : Series) : M F Series :=
  do vs <- map_cells f (values s);
  ret (mkSeries (infer_dtype (dtype s) vs) vs).

(** [len(series.index)] *)
Definition len_index (s : Series) : nat := length (values s).

(** [series.is_unique]: no two cells with the same hash-table key. *)
Definition is_unique (s : Series) : bool := bool_decide (NoDup (hash_key <$> values s)).

(** [series.isnull().values.any()] *)
Definition isnull_any (s : Series) : bool := existsb is_missing (values s).

(** [series.min()] and [series.max()] as the range check uses them: missing
    cells are skipped, a column without numbers gives NaN ([None] here), and
    a text makes the reduction, or the comparison with the integer bound
    that follows it, raise [TypeError]. *)
Definition is_str (v : value) : bool :=
  match v with VStr _ => true | _ => false end.

Definition numbers (vs : list value) : list Z :=
  omap (fun v => match v with VInt z => Some z | _ => None end) vs.

Definition reduce (op : Z -> Z -> Z) (zs : list Z) : option Z :=
  match zs with
  | [] => None
  | z :: rest => Some (foldl op z rest)
  end.

Definition Series_min {F} (s : Series) : M F (option Z) :=
  if existsb is_str (values s) then raise TypeError
  else ret (reduce Z.min (numbers (values s))).

Definition Series_max {F} (s : Series) : M F (option Z) :=
  if existsb is_str (values s) then raise TypeError
  else ret (reduce Z.max (numbers (values s))).

(** Comparisons with NaN are false. *)
Definition nan_lt (a : option Z) (b : Z) : bool :=
  match a with Some z => z <? b | None => false end.

Definition nan_gt (a : option Z) (b : Z) : bool :=
  match a with Some z => z >? b | None => false end.

(** Python truthiness of a list. *)
Definition truthy {A} (l : list A) : bool :=
  match l with [] => false | _ => true end.

(** ** The checks of [checks.py] *)

(** An instance of [Check] or of one of its subclasses, with its
    attributes. *)
Inductive Check :=
| BaseCheck (cols : list string)
| CheckTimeStamps (cols : list string)
| CheckBlank (cols : list string)
| CheckGibberrish (cols : list string) (gibberish_list : list value)
    (_found_issues : gmap string value)
| CheckDuplicate (cols : list string)
| CheckDataValidity (cols : list string) (_possible_values : list value)
    (_found_issues : gmap string (list value))
| CheckFutureDates (cols : list string) (_found_issues : gset string)
    (_current_time : Timestamp)
| CheckNumWithinRange (cols : list string) (range_start range_end : Z)
    (_found_issues : list string)
| CheckDataConsistency (cols : list string)
| CheckDataRelevancy (cols : list string) (expected_columns : list string)
| CheckIsNaN (cols : list string).

Global Instance Check_eq_dec : EqDecision Check.
Proof. solve_decision. Defined.


(** The constructors that set up an accumulator ([__init__]). *)
Definition CheckGibberrish_init (cols : list string) (giberrish_list : list value) : Check :=
  CheckGibberrish cols giberrish_list ∅.

Definition CheckDataValidity_init (cols : list string) (possible_values : list value) : Check :=
  CheckDataValidity cols possible_values ∅.

(** [now] stands for [pd.to_datetime(datetime.now())], read once here. *)
Definition CheckFutureDates_init (now : Timestamp) (cols : list string) : Check :=
  CheckFutureDates cols ∅ now.

Definition CheckNumWithinRange_init (cols : list string) (range_start range_end : Z) : Check :=
  CheckNumWithinRange cols range_start range_end [].

Definition show_Z (z : Z) : string := NilZero.string_of_int (Z.to_int z).

Section Checks.

Variable pd : PandasDates.

(** [lambda x: pd.Timestamp(x).strftime('%Y-%m-%d %X')] *)
Definition normalize_cell {F} (x : value) : M F value :=
  match pd_Timestamp pd x with
  | Parsed t => ret (VStr (strftime t))
  | Aware t => ret (VStr (strftime t))
  | NaT => raise (ValueError "NaTType does not support strftime")
  | Unparseable => raise (ParserError x)
  end.

Definition CheckTimeStamps_apply (cols : list string) : M unit unit :=
  for_each cols (fun column =>
    do s <- getitem column;
    do s' <- Series_apply normalize_cell s;
    setitem column s').

Definition CheckBlank_apply (cols : list string) : M unit unit :=
  do empty_cols <- for_acc cols [] (fun empty_cols col =>
    do s <- getitem col;
    if (len_index s =? 0)%nat then ret (empty_cols ++ [col]) else ret empty_cols);
  if truthy empty_cols
  then raise (DataException "Empty columns found" (PList empty_cols))
  else ret tt.

Definition _check_gibberish (gibberish_list : list value) (col : string) (item : value)
  : M (gmap string value) value :=
  if py_in item gibberish_list
  then modify_issues (fun found => <[col := item]> found) ;; ret VNone
  else ret VNone.

Definition CheckGibberrish_apply (cols : list string) (gibberish_list : list value)
  : M (gmap string value) unit :=
  for_each cols (fun col =>
    do s <- getitem col;
    Series_apply (_check_gibberish gibberish_list col) s ;; ret tt) ;;
  do found <- get_issues;
  if bool_decide (found ≠ ∅)
  then raise (ValidDataException "Gibberish inputs found" (PDict found))
  else ret tt.

Definition CheckDuplicate_apply (cols : list string) : M unit unit :=
  do cols_with_duplicate_values <- for_acc cols [] (fun acc col =>
    do s <- getitem col;
    if negb (is_unique s) then ret (acc ++ [col]) else ret acc);
  if truthy cols_with_duplicate_values
  then raise (ValidDataException "Columns containing duplicate values"
                (PList cols_with_duplicate_values))
  else ret tt.

(** [self._found_issues[col].add(item)] on a [defaultdict(set)] *)
Definition _check_data_inputs (possible_values : list value) (col : string) (item : value)
  : M (gmap string (list value)) value :=
  if negb (py_in item possible_values)
  then modify_issues (fun found =>
         <[col := py_set_add (default [] (found !! col)) item]> found) ;;
       ret VNone
  else ret VNone.

Definition CheckDataValidity_apply (cols : list string) (possible_values : list value)
  : M (gmap string (list value)) unit :=
  for_each cols (fun col =>
    do s <- getitem col;
    Series_apply (_check_data_inputs possible_values col) s ;; ret tt) ;;
  do found <- get_issues;
  if bool_decide (found ≠ ∅)
  then raise (ValidDataException "Incorrect values found" (PDictSet found))
  else ret tt.

(** [pd.to_datetime(None)] is [None], and neither [None] nor a timestamp
    with a time zone can be compared with the naive [_current_time]: both
    make [<] raise [TypeError].  Comparisons with [NaT] are false. *)
Definition _check_time (current_time : Timestamp) (col : string) (item : value)
  : M (gset string) value :=
  match item with
  | VNone => raise TypeError
  | _ =>
      match pd_to_datetime pd item with
      | Parsed t =>
          if ts_lt current_time t
          then modify_issues (fun found => found ∪ {[col]}) ;; ret VNone
          else ret VNone
      | Aware _ => raise TypeError
      | NaT => ret VNone
      | Unparseable => raise (ParserError item)
      end
  end.

Definition CheckFutureDates_apply (cols : list string) (current_time : Timestamp)
  : M (gset string) unit :=
  for_each cols (fun col =>
    do s <- getitem col;
    Series_apply (_check_time current_time col) s ;; ret tt) ;;
  do found <- get_issues;
  if bool_decide (found ≠ ∅)
  then raise (ValidDataException "Future date found in column(s)" (PColSet found))
  else ret tt.

Definition CheckNumWithinRange_apply (cols : list string) (range_start range_end : Z)
  : M (list string) unit :=
  if range_start >? range_end
  then raise (ValueError ("The starting point (" +:+ show_Z range_start +:+
                ") should be less than the ending point (" +:+ show_Z range_end +:+ ")."))
  else
    for_each cols (fun col =>
      do s <- getitem col;
      do lo <- Series_min s;
      do outside <- (if nan_lt lo range_start then ret true
                     else do s2 <- getitem col;
                          do hi <- Series_max s2;
                          ret (nan_gt hi range_end));
      if outside : bool then modify_issues (fun found => found ++ [col]) else ret tt) ;;
    do found <- get_issues;
    if truthy found
    then raise (ValidDataException "Inputs outside the specified ranges found" (PList found))
    else ret tt.

Definition CheckDataConsistency_apply (cols : list string) : M unit unit :=
  if (length cols <? 2)%nat then ret tt
  else
    do collected_types <- for_acc cols (∅ : gset Dtype) (fun acc col =>
      do s <- getitem col; ret (acc ∪ {[dtype s]}));
    if (1 <? size collected_types)%nat
    then raise (ValidDataException
                  "The passed columns are not of the same type, the collected types are:"
                  (PTypeSet collected_types))
    else ret tt.

Definition CheckDataRelevancy_apply (expected_columns : list string) : M unit unit :=
  do names <- get_columns;
  do unexpected_cols <- for_acc names [] (fun acc col =>
    if bool_decide (col ∉ expected_columns) then ret (acc ++ [col]) else ret acc);
  if truthy unexpected_cols
  then raise (DataException "Columns with irrelevant information found"
                (PList unexpected_cols))
  else ret tt.

Definition CheckIsNaN_apply (cols : list string) : M unit unit :=
  do cols_with_nan <- for_acc cols [] (fun acc column =>
    do s <- getitem column;
    if isnull_any s then ret (acc ++ [column]) else ret acc);
  if truthy cols_with_nan
  then raise (ValidDataException "Columns containing NaN values" (PList cols_with_nan))
  else ret tt.

(** What a call [check.apply(data_source)] leaves behind: the check object,
    the data frame, and how the call ended. *)
Record Effect := mkEffect {
  self' : Check;
  data' : DataFrame;
  outcome : Res unit
}.

Definition run_method {F} (m : M F unit) (found : F) (store : F -> Check)
    (df : DataFrame) : Effect :=
  let '(st, r) := m (mkSt found df) in
  mkEffect (store (issues st)) (frame st) r.

(** Method dispatch on the class of the instance. *)
Definition apply (c : Check) (df : DataFrame) : Effect :=
  match c with
  | BaseCheck cols =>
      run_method (raise NotImplementedError) tt (fun _ => c) df
  | CheckTimeStamps cols =>
      run_method (CheckTimeStamps_apply cols) tt (fun _ => c) df
  | CheckBlank cols =>
      run_method (CheckBlank_apply cols) tt (fun _ => c) df
  | CheckGibberrish cols gl found =>
      run_method (CheckGibberrish_apply cols gl) found (CheckGibberrish cols gl) df
  | CheckDuplicate cols =>
      run_method (CheckDuplicate_apply cols) tt (fun _ => c) df
  | CheckDataValidity cols pv found =>
      run_method (CheckDataValidity_apply cols pv) found (CheckDataValidity cols pv) df
  | CheckFutureDates cols found now =>
      run_method (CheckFutureDates_apply cols now) found
        (fun found' => CheckFutureDates cols found' now) df
  | CheckNumWithinRange cols lo hi found =>
      run_method (CheckNumWithinRange_apply cols lo hi) found
        (CheckNumWithinRange cols lo hi) df
  | CheckDataConsistency cols =>
      run_method (CheckDataConsistency_apply cols) tt (fun _ => c) df
  | CheckDataRelevancy cols expected =>
      run_method (CheckDataRelevancy_apply expected) tt (fun _ => c) df
  | CheckIsNaN cols =>
      run_method (CheckIsNaN_apply cols) tt (fun _ => c) df
  end.

End Checks.

(** ** The runner: [DataSource] of [solution.py] *)

(** The list [_checks] holds references to check objects; [ObjStore] maps an
    object identity to the state of the object.  The same object can be
    attached twice, and then both entries see one state. *)
Abbreviation ObjStore := (gmap nat Check).

Record DataSource := mkDataSource {
  data_name : string;
  data_source : DataFrame;
  _checks : list nat
}.

(** [__init__], with the frame that [load] returned. *)
Definition DataSource_init (name : string) (loaded : DataFrame) : DataSource :=
  mkDataSource name loaded [].

(** [self._checks.append(check)] *)
Definition add_check (ds : DataSource) (check : nat) : DataSource :=
  mkDataSource (data_name ds) (data_source ds) (_checks ds ++ [check]).

(** [list.remove(x)]: drops the first item equal to [x], [None] when there is
    none.  The check classes define no [__eq__], so [==] on them is object
    identity: equality of references. *)
Fixpoint list_remove (x : nat) (l : list nat) : option (list nat) :=
  match l with
  | [] => None
  | y :: rest =>
      if decide (x = y) then Some rest
      else rest' ← list_remove x rest; Some (y :: rest')
  end.

(** [self._checks.remove(check)] *)
Definition remove_check (ds : DataSource) (check : nat) : DataSource * Res unit :=
  match list_remove check (_checks ds) with
  | Some l => (mkDataSource (data_name ds) (data_source ds) l, Val tt)
  | None => (ds, Exc (ValueError "list.remove(x): x not in list"))
  end.

(** A run of [check_data]: the objects and the frame it leaves, the
    references whose [apply] was entered, in order, and how it ended.  The
    [invoked] list is an observer added to the model; the code keeps no such
    log. *)
Record Run := mkRun {
  store' : ObjStore;
  frame' : DataFrame;
  invoked : list nat;
  result : Res unit
}.

Section Runner.

Variable pd : PandasDates.

(** [for check in self._checks: check.apply(self.data_source)].  [None]
    marks a reference without an object, which no Python state has. *)
Fixpoint run_checks (refs : list nat) (h : ObjStore) (df : DataFrame)
    (log : list nat) : option Run :=
  match refs with
  | [] => Some (mkRun h df log (Val tt))
  | r :: rest =>
      c ← h !! r;
      let eff := apply pd c df in
      let h' := <[r := self' eff]> h in
      match outcome eff with
      | Val _ => run_checks rest h' (data' eff) (log ++ [r])
      | Exc e => Some (mkRun h' (data' eff) (log ++ [r]) (Exc e))
      end
  end.

Definition check_data (h : ObjStore) (ds : DataSource) : option Run :=
  run_checks (_checks ds) h (data_source ds) [].

End Runner.

(** ** A concrete date reader

    It understands the canonical form only; it instantiates the parameter
    in the examples. *)
Definition iso_only (v : value) : DateRes :=
  match v with
  | VStr s => match parse_iso s with Some t => Parsed t | None => Unparseable end
  | VNone | VNaN _ => NaT
  | VInt _ => Unparseable
  end.

(** A reader that also takes a bare date for midnight of that day. *)
Definition iso_or_date (v : value) : DateRes :=
  match v with
  | VStr s =>
      match parse_iso s with
      | Some t => Parsed t
      | None =>
          match parse_iso (s +:+ " 00:00:00") with
          | Some t => Parsed t
          | None => Unparseable
          end
      end
  | VNone | VNaN _ => NaT
  | VInt _ => Unparseable
  end.

Definition date_reader : PandasDates :=
  {| pd_Timestamp := iso_or_date; pd_to_datetime := iso_or_date |}.

Definition iso_dates : PandasDates :=
  {| pd_Timestamp := iso_only; pd_to_datetime := iso_only |}.

Definition text_column (vs : list string) : Series :=
  mkSeries object_ (VStr <$> vs).

Definition int_column (zs : list Z) : Series :=
  mkSeries int64 (VInt <$> zs).

(** ** Vocabulary of the statements *)

(** The normalisation is the one check that assigns to the data frame. *)
Definition is_normalization (c : Check) : bool :=
  match c with CheckTimeStamps _ => true | _ => false end.

(** The column [data_source[col]] when it exists. *)
Definition has_column (df : DataFrame) (col : string) : Prop :=
  is_Some (assoc_lookup col (columns df)).

Definition column (df : DataFrame) (col : string) : Series :=
  default (mkSeries object_ []) (assoc_lookup col (columns df)).

(** The first of [cols] that the data frame lacks. *)
Fixpoint first_absent (cols : list string) (df : DataFrame) : option string :=
  match cols with
  | [] => None
  | c :: rest =>
      match assoc_lookup c (columns df) with
      | None => Some c
      | Some _ => first_absent rest df
      end
  end.

(** The target columns that [CheckBlank] reports. *)
Definition blank_columns (cols : list string) (df : DataFrame) : list string :=
  filter (fun col => (len_index (column df col) =? 0)%nat = true) cols.

(** The distinct dtypes of the target columns. *)
Definition distinct_types (cols : list string) (df : DataFrame) : gset Dtype :=
  list_to_set ((fun col => dtype (column df col)) <$> cols).

(** The last cell of a column that is in the forbidden list. *)
Definition last_match (gibberish_list vs : list value) : option value :=
  last (filter (fun v => py_in v gibberish_list = true) vs).

(** What [_check_gibberish] leaves in [_found_issues] after the cells of one
    column, and after the columns [cols]. *)
Definition record_cells (gibberish_list : list value) (col : string)
    (vs : list value) (found : gmap string value) : gmap string value :=
  foldl (fun m v => if py_in v gibberish_list then <[col := v]> m else m)
        found vs.

Definition record_columns (gibberish_list : list value) (df : DataFrame)
    (cols : list string) (found : gmap string value) : gmap string value :=
  foldl (fun m col => record_cells gibberish_list col (values (column df col)) m)
        found cols.

(** The removal that the specification describes, for comparison with
    [remove_check]: it drops the first entry whose object has the same class
    and attributes as the object of [check], and does nothing (and never
    raises) when there is none. *)
Fixpoint remove_structural (h : ObjStore) (check : nat) (l : list nat) : list nat :=
  match l with
  | [] => []
  | y :: rest =>
      if decide (h !! y = h !! check) then rest
      else y :: remove_structural h check rest
  end.



(** A cell in canonical form [YYYY-MM-DD HH:MM:SS]. *)
Definition canonical (v : value) : Prop :=
  exists t, valid_ts t = true /\ v = VStr (strftime t).

(** A column whose dtype is the one pandas would infer again for it. *)
Definition settled (s : Series) : Prop :=
  infer_dtype (dtype s) (values s) = dtype s.

(** A computation that leaves the data frame as it is, and one that raises
    only exceptions of a given kind. *)
Definition read_only {F A} (m : M F A) : Prop :=
  forall st, frame (m st).1 = frame st.

Definition raises_only {F A} (allowed : exn -> Prop) (m : M F A) : Prop :=
  forall st st' e, m st = (st', Exc e) -> allowed e.


(** The checks of [refs], applied one after the other in the order of the
    list, each to the frame and the objects the one before left, all return;
    [h'] and [df'] are the objects and the frame after the last. *)
Inductive all_return (pd : PandasDates)
  : list nat -> ObjStore -> DataFrame -> ObjStore -> DataFrame -> Prop :=
| all_return_nil h df : all_return pd [] h df h df
| all_return_cons r rest h df c h' df' :
    h !! r = Some c ->
    outcome (apply pd c df) = Val tt ->
    all_return pd rest (<[r := self' (apply pd c df)]> h) (data' (apply pd c df)) h' df' ->
    all_return pd (r :: rest) h df h' df'.

(** ** Vocabulary of the further properties *)

(** The target columns that hold a value twice, those that hold a missing
    value, and the columns of the frame that are not expected. *)
Definition duplicate_columns (cols : list string) (df : DataFrame) : list string :=
  filter (fun col => ~ NoDup (hash_key <$> values (column df col))) cols.

Definition null_columns (cols : list string) (df : DataFrame) : list string :=
  filter (fun col => Exists (fun v => is_missing v = true) (values (column df col))) cols.

Definition unexpected_columns (expected_columns : list string) (df : DataFrame)
  : list string :=
  filter (fun col => col ∉ expected_columns) (column_names df).

(** The cells of a column that are not among the possible values, in
    storage order. *)
Definition offending (possible_values vs : list value) : list value :=
  filter (fun v => py_in v possible_values = false) vs.

(** What [_check_data_inputs] leaves in [_found_issues] after the cells of
    one column, and after the columns [cols]. *)
Definition collect_cells (possible_values : list value) (col : string)
    (vs : list value) (found : gmap string (list value)) : gmap string (list value) :=
  foldl (fun m v =>
           if negb (py_in v possible_values)
           then <[col := py_set_add (default [] (m !! col)) v]> m else m)
        found vs.

Definition collect_columns (possible_values : list value) (df : DataFrame)
    (cols : list string) (found : gmap string (list value)) : gmap string (list value) :=
  foldl (fun m col => collect_cells possible_values col (values (column df col)) m)
        found cols.

(** A number outside the range, and the target columns that hold one. *)
Definition outside (range_start range_end : Z) (v : value) : Prop :=
  match v with
  | VInt z => z < range_start \/ range_end < z
  | _ => False
  end.

Global Instance outside_dec range_start range_end v :
  Decision (outside range_start range_end v).
Proof. destruct v; simpl; apply _. Defined.

Definition out_of_range_columns (range_start range_end : Z) (cols : list string)
    (df : DataFrame) : list string :=
  filter (fun col => Exists (outside range_start range_end) (values (column df col))) cols.




(** The classes that keep [_found_issues] on the instance, and the instances
    in which it is not empty. *)
Definition keeps_accumulator (c : Check) : bool :=
  match c with
  | CheckGibberrish _ _ _ | CheckDataValidity _ _ _
  | CheckFutureDates _ _ _ | CheckNumWithinRange _ _ _ _ => true
  | _ => false
  end.

Definition holds_findings (c : Check) : bool :=
  match c with
  | CheckGibberrish _ _ found => bool_decide (found ≠ ∅)
  | CheckDataValidity _ _ found => bool_decide (found ≠ ∅)
  | CheckFutureDates _ found _ => bool_decide (found ≠ ∅)
  | CheckNumWithinRange _ _ _ found => truthy found
  | _ => false
  end.

(** A computation that keeps a property of the accumulator. *)
Definition keeps {F A} (P : F -> Prop) (m : M F A) : Prop :=
  forall st, P (issues st) -> P (issues (m st).1).


(** Two frames with the same index and, column by column, the same label
    and the same number of cells, that differ only in columns among
    [cols]. *)
Definition same_shape (cols : list string) (df df' : DataFrame) : Prop :=
  index_len df' = index_len df /\
  Forall2 (fun a b : string * Series =>
             a.1 = b.1 /\ length (values a.2) = length (values b.2) /\
             (a.1 ∉ cols -> a = b))
          (columns df) (columns df').

(** An instance without what it has accumulated: its class, its target
    columns and its parameters. *)
Definition forget_issues (c : Check) : Check :=
  match c with
  | CheckGibberrish cols gibberish_list _ => CheckGibberrish cols gibberish_list ∅
  | CheckDataValidity cols possible_values _ => CheckDataValidity cols possible_values ∅
  | CheckFutureDates cols _ current_time => CheckFutureDates cols ∅ current_time
  | CheckNumWithinRange cols range_start range_end _ =>
      CheckNumWithinRange cols range_start range_end []
  | _ => c
  end.

(** ** How checks and data sources print

    [Check.__repr__] gives the name of the class of the instance;
    [DataSource.__repr__] joins the names of the attached checks, in order,
    with [" | "]. *)
Definition Check_repr (c : Check) : string :=
  match c with
  | BaseCheck _ => "Check"
  | CheckTimeStamps _ => "CheckTimeStamps"
  | CheckBlank _ => "CheckBlank"
  | CheckGibberrish _ _ _ => "CheckGibberrish"
  | CheckDuplicate _ => "CheckDuplicate"
  | CheckDataValidity _ _ _ => "CheckDataValidity"
  | CheckFutureDates _ _ _ => "CheckFutureDates"
  | CheckNumWithinRange _ _ _ _ => "CheckNumWithinRange"
  | CheckDataConsistency _ => "CheckDataConsistency"
  | CheckDataRelevancy _ _ => "CheckDataRelevancy"
  | CheckIsNaN _ => "CheckIsNaN"
  end.

(** [sep.join(l)] *)
Fixpoint join (sep : string) (l : list string) : string :=
  match l with
  | [] => ""
  | [x] => x
  | x :: rest => x +:+ sep +:+ join sep rest
  end.

(** [[str(ch) for ch in self._checks]]; [None] for a reference without an
    object. *)
Fixpoint check_reprs (h : ObjStore) (refs : list nat) : option (list string) :=
  match refs with
  | [] => Some []
  | r :: rest =>
      c ← h !! r;
      names ← check_reprs h rest;
      Some (Check_repr c :: names)
  end.

Definition DataSource_repr (h : ObjStore) (ds : DataSource) : option string :=
  names ← check_reprs h (_checks ds);
  Some ("<DS: " +:+ data_name ds +:+ " with Checks: " +:+ join " | " names +:+ ">").

(** * Properties *)

(** ** Computations that leave the data frame alone *)

Create HintDb frame_db.

Lemma read_only_ret {F A} (a : A) : read_only (@ret F A a).
Proof. by intros st. Qed.

Lemma read_only_raise {F A} (e : exn) : read_only (@raise F A e).
Proof. by intros st. Qed.

Lemma read_only_bind {F A B} (m : M F A) (k : A -> M F B) :
  read_only m -> (forall a, read_only (k a)) -> read_only (bind m k).
Proof.
  intros Hm Hk st. unfold bind. specialize (Hm st).
  destruct (m st) as [st1 [a|e]]; simpl in *; [|done].
  by rewrite Hk.
Qed.

Lemma read_only_getitem {F} col : read_only (@getitem F col).
Proof. intros st. unfold getitem. by destruct (assoc_lookup _ _). Qed.

Lemma read_only_get_columns {F} : read_only (@get_columns F).
Proof. by intros st. Qed.

Lemma read_only_get_issues {F} : read_only (@get_issues F).
Proof. by intros st. Qed.

Lemma read_only_modify_issues {F} (f : F -> F) : read_only (modify_issues f).
Proof. by intros st. Qed.

Lemma read_only_if {F A} (b : bool) (m1 m2 : M F A) :
  read_only m1 -> read_only m2 -> read_only (if b then m1 else m2).
Proof. by destruct b. Qed.

Lemma read_only_for_each {F A} (xs : list A) (body : A -> M F unit) :
  (forall x, read_only (body x)) -> read_only (for_each xs body).
Proof.
  intros Hb. induction xs as [|x xs IH]; simpl.
  - apply read_only_ret.
  - apply read_only_bind; auto.
Qed.

Lemma read_only_for_acc {F A B} (xs : list A) (acc : B) (body : B -> A -> M F B) :
  (forall b x, read_only (body b x)) -> read_only (for_acc xs acc body).
Proof.
  intros Hb. revert acc. induction xs as [|x xs IH]; intros acc; simpl.
  - apply read_only_ret.
  - apply read_only_bind; auto.
Qed.

Lemma read_only_map_cells {F} (f : value -> M F value) vs :
  (forall v, read_only (f v)) -> read_only (map_cells f vs).
Proof.
  intros Hf. induction vs as [|v vs IH]; simpl.
  - apply read_only_ret.
  - apply read_only_bind; [auto|]. intros v'.
    apply read_only_bind; [auto|]. intros. apply read_only_ret.
Qed.

Lemma read_only_Series_apply {F} (f : value -> M F value) s :
  (forall v, read_only (f v)) -> read_only (Series_apply f s).
Proof.
  intros Hf. apply read_only_bind.
  - by apply read_only_map_cells.
  - intros. apply read_only_ret.
Qed.

Lemma read_only_Series_min {F} s : read_only (@Series_min F s).
Proof. unfold Series_min. apply read_only_if; [apply read_only_raise|apply read_only_ret]. Qed.

Lemma read_only_Series_max {F} s : read_only (@Series_max F s).
Proof. unfold Series_max. apply read_only_if; [apply read_only_raise|apply read_only_ret]. Qed.

#[local] Hint Resolve read_only_ret read_only_raise read_only_getitem
  read_only_get_columns read_only_get_issues read_only_modify_issues
  read_only_Series_min read_only_Series_max : frame_db.

(** Pushes [read_only] through the structure of a method body. *)
Ltac frame_step :=
  first
    [ solve [auto with frame_db]
    | apply read_only_Series_apply; intros ?
    | apply read_only_map_cells; intros ?
    | apply read_only_for_each; intros ?
    | apply read_only_for_acc; intros ? ?
    | apply read_only_if
    | apply read_only_bind; [|intros ?] ].

Ltac frame_auto := repeat frame_step.

(** Case analysis on the cell and on what the reader makes of it. *)
Ltac check_time_cases pd :=
  unfold _check_time;
  match goal with
  | |- context [pd_to_datetime pd ?v] =>
      destruct v; try destruct (pd_to_datetime pd _)
  end.

Section ReadOnlyChecks.

Variable pd : PandasDates.

Lemma read_only_CheckBlank cols : read_only (CheckBlank_apply cols).
Proof. unfold CheckBlank_apply. frame_auto. Qed.

Lemma read_only_CheckGibberrish cols gl : read_only (CheckGibberrish_apply cols gl).
Proof. unfold CheckGibberrish_apply, _check_gibberish. frame_auto. Qed.

Lemma read_only_CheckDuplicate cols : read_only (CheckDuplicate_apply cols).
Proof. unfold CheckDuplicate_apply. frame_auto. Qed.

Lemma read_only_CheckDataValidity cols pv : read_only (CheckDataValidity_apply cols pv).
Proof. unfold CheckDataValidity_apply, _check_data_inputs. frame_auto. Qed.

Lemma read_only_CheckFutureDates cols now : read_only (CheckFutureDates_apply pd cols now).
Proof.
  unfold CheckFutureDates_apply. frame_auto.
  check_time_cases pd; frame_auto.
Qed.

Lemma read_only_CheckNumWithinRange cols lo hi :
  read_only (CheckNumWithinRange_apply cols lo hi).
Proof. unfold CheckNumWithinRange_apply. frame_auto. Qed.

Lemma read_only_CheckDataConsistency cols : read_only (CheckDataConsistency_apply cols).
Proof. unfold CheckDataConsistency_apply. frame_auto. Qed.

Lemma read_only_CheckDataRelevancy expected : read_only (CheckDataRelevancy_apply expected).
Proof. unfold CheckDataRelevancy_apply. frame_auto. Qed.

Lemma read_only_CheckIsNaN cols : read_only (CheckIsNaN_apply cols).
Proof. unfold CheckIsNaN_apply. frame_auto. Qed.

Lemma run_method_read_only {F} (m : M F unit) found store df :
  read_only m -> data' (run_method m found store df) = df.
Proof.
  intros Hm. unfold run_method. specialize (Hm (mkSt found df)).
  by destruct (m _).
Qed.

End ReadOnlyChecks.

(** ** Loops over the target columns *)

Lemma first_absent_None cols df :
  first_absent cols df = None <-> Forall (has_column df) cols.
Proof.
  unfold has_column. induction cols as [|c cols IH]; simpl.
  - split; [constructor|done].
  - destruct (assoc_lookup c (columns df)) eqn:E.
    + rewrite IH. split.
      * intros H. constructor; [by rewrite E|done].
      * by inversion 1.
    + split; [done|]. inversion 1 as [|? ? [? Hs]]; subst. congruence.
Qed.

Lemma getitem_column {F} col (st : St F) :
  has_column (frame st) col -> getitem col st = (st, Val (column (frame st) col)).
Proof.
  unfold has_column, getitem, column. intros [s Hs]. by rewrite Hs.
Qed.

(** A loop whose body reads one column and updates a local variable either
    stops with [KeyError] at the first missing column or folds over all of
    them. *)
Lemma for_acc_columns {F B} (k : B -> string -> Series -> B)
    (body : B -> string -> M F B) cols acc (st : St F) :
  (forall b col st', body b col st' = (do s <- getitem col; ret (k b col s)) st') ->
  for_acc cols acc body st =
    match first_absent cols (frame st) with
    | Some c0 => (st, Exc (KeyError c0))
    | None => (st, Val (foldl (fun b col => k b col (column (frame st) col)) acc cols))
    end.
Proof.
  intros Hbody. revert acc. induction cols as [|c cols IH]; intros acc; simpl; [done|].
  unfold bind at 1. rewrite Hbody. unfold bind at 1, getitem, column at 1.
  destruct (assoc_lookup c (columns (frame st))) eqn:E; simpl; [|done].
  rewrite IH. destruct (first_absent cols (frame st)); [done|].
  unfold column at 2. by rewrite E.
Qed.

Lemma if_ret {F A} (b : bool) (x y : A) (st : St F) :
  (if b then ret x else ret y) st = ret (if b then x else y) st.
Proof. by destruct b. Qed.

Lemma foldl_flag {A} (p : A -> bool) (xs acc : list A) :
  foldl (fun b x => if p x then b ++ [x] else b) acc xs = acc ++ filter (fun x => p x = true) xs.
Proof.
  revert acc. induction xs as [|x xs IH]; intros acc; simpl.
  - by rewrite app_nil_r.
  - rewrite IH. rewrite filter_cons. destruct (p x) eqn:E.
    + rewrite decide_True by done. by rewrite <- app_assoc.
    + rewrite decide_False by congruence. done.
Qed.

Lemma assoc_lookup_elem col cs s :
  assoc_lookup col cs = Some s -> (col, s) ∈ cs.
Proof.
  induction cs as [|[name s0] cs IH]; simpl; [done|].
  case_decide; intros Hl.
  - simplify_eq. apply list_elem_of_here.
  - apply list_elem_of_further. auto.
Qed.

Lemma wf_len_index df col :
  wf_DataFrame df -> has_column df col -> len_index (column df col) = index_len df.
Proof.
  intros [_ Hlen] [s Hs]. unfold column, len_index. rewrite Hs. simpl.
  rewrite Forall_forall in Hlen.
  by apply (Hlen (col, s)), assoc_lookup_elem.
Qed.

(** ** The presence check *)

Section Presence.

Variable pd : PandasDates.

Lemma CheckBlank_apply_eval cols (st : St unit) :
  Forall (has_column (frame st)) cols ->
  CheckBlank_apply cols st =
    (st, if truthy (blank_columns cols (frame st))
         then Exc (DataException "Empty columns found"
                     (PList (blank_columns cols (frame st))))
         else Val tt).
Proof.
  intros Hcols. unfold CheckBlank_apply, bind.
  rewrite (for_acc_columns
             (fun b col s => if (len_index s =? 0)%nat then b ++ [col] else b)).
  2:{ intros b col st'. unfold bind. destruct (getitem col st') as [? [s|e]]; [|done].
      apply if_ret. }
  apply first_absent_None in Hcols. rewrite Hcols.
  rewrite (foldl_flag (fun col => (len_index (column (frame st) col) =? 0)%nat)).
  simpl. fold (blank_columns cols (frame st)).
  by destruct (truthy _).
Qed.

Lemma blank_columns_empty_frame cols df :
  wf_DataFrame df -> Forall (has_column df) cols -> index_len df = 0%nat ->
  blank_columns cols df = cols.
Proof.
  intros Hwf Hcols H0. unfold blank_columns.
  induction Hcols as [|c cols Hc Hcols IH]; [done|].
  rewrite filter_cons, decide_True, IH; [done|].
  rewrite (wf_len_index df c Hwf Hc), H0. done.
Qed.

Lemma blank_columns_rows cols df :
  wf_DataFrame df -> Forall (has_column df) cols -> index_len df <> 0%nat ->
  blank_columns cols df = [].
Proof.
  intros Hwf Hcols H0. unfold blank_columns.
  induction Hcols as [|c cols Hc Hcols IH]; [done|].
  rewrite filter_cons, decide_False, IH; [done|].
  rewrite (wf_len_index df c Hwf Hc). apply not_true_iff_false, Nat.eqb_neq. done.
Qed.

(** C7 (amended): on a frame without rows in which the target columns
    exist, the presence check raises [DataException] listing every target
    column when it has at least one target, and returns when it has none;
    on a frame with at least one row it returns, whatever the cells hold. *)
Theorem C7_presence_check cols df :
  wf_DataFrame df -> Forall (has_column df) cols ->
  (index_len df = 0%nat -> cols <> [] ->
     outcome (apply pd (CheckBlank cols) df)
     = Exc (DataException "Empty columns found" (PList cols))) /\
  (index_len df = 0%nat -> cols = [] ->
     outcome (apply pd (CheckBlank cols) df) = Val tt) /\
  (index_len df <> 0%nat ->
     outcome (apply pd (CheckBlank cols) df) = Val tt).
Proof.
  intros Hwf Hcols. simpl. unfold run_method.
  rewrite CheckBlank_apply_eval by done. simpl.
  split; [|split].
  - intros H0 Hne. rewrite blank_columns_empty_frame by done.
    by destruct cols.
  - intros H0 ->. done.
  - intros Hrows. by rewrite blank_columns_rows.
Qed.

End Presence.

(** ** Checks other than the normalisation do not write the frame *)

(** C10: every check other than the timestamp normalisation leaves the data
    frame as it found it, whether [apply] returns or raises: the column
    names, the length of the index and every column are those of the
    argument. *)
Theorem C10_checks_read_only pd c df :
  is_normalization c = false ->
  data' (apply pd c df) = df /\
  column_names (data' (apply pd c df)) = column_names df /\
  index_len (data' (apply pd c df)) = index_len df /\
  (forall col, assoc_lookup col (columns (data' (apply pd c df)))
               = assoc_lookup col (columns df)).
Proof.
  intros Hc.
  assert (data' (apply pd c df) = df) as ->; [|done].
  destruct c; try discriminate Hc; apply run_method_read_only.
  - apply read_only_raise.
  - apply read_only_CheckBlank.
  - apply read_only_CheckGibberrish.
  - apply read_only_CheckDuplicate.
  - apply read_only_CheckDataValidity.
  - apply read_only_CheckFutureDates.
  - apply read_only_CheckNumWithinRange.
  - apply read_only_CheckDataConsistency.
  - apply read_only_CheckDataRelevancy.
  - apply read_only_CheckIsNaN.
Qed.

(** ** The range check with inverted bounds *)

(** C5: with [range_start > range_end] every call of [apply] raises
    [ValueError] at once, whatever the frame and whatever the object has
    accumulated; neither is changed.  The constructor builds the instance
    without looking at the bounds. *)
Theorem C5_inverted_range pd cols range_start range_end found df :
  range_start > range_end ->
  apply pd (CheckNumWithinRange cols range_start range_end found) df
  = mkEffect (CheckNumWithinRange cols range_start range_end found) df
      (Exc (ValueError ("The starting point (" +:+ show_Z range_start +:+
              ") should be less than the ending point (" +:+ show_Z range_end +:+ ").")))
  /\ CheckNumWithinRange_init cols range_start range_end
     = CheckNumWithinRange cols range_start range_end [].
Proof.
  intros Hgt. split; [|done]. simpl. unfold run_method, CheckNumWithinRange_apply.
  apply Z.gtb_gt in Hgt. by rewrite Hgt.
Qed.

(** ** The type-consistency check *)

Section Consistency.

Variable pd : PandasDates.

Lemma foldl_types df cols (acc : gset Dtype) :
  foldl (fun b col => b ∪ {[dtype (column df col)]}) acc cols
  = acc ∪ distinct_types cols df.
Proof.
  unfold distinct_types. revert acc.
  induction cols as [|c cols IH]; intros acc; simpl.
  - by rewrite (right_id_L ∅ (∪)).
  - rewrite IH. by rewrite <- (assoc_L (∪)).
Qed.

Lemma CheckDataConsistency_apply_eval cols (st : St unit) :
  (2 <= length cols)%nat -> Forall (has_column (frame st)) cols ->
  CheckDataConsistency_apply cols st =
    (st, if (1 <? size (distinct_types cols (frame st)))%nat
         then Exc (ValidDataException
                     "The passed columns are not of the same type, the collected types are:"
                     (PTypeSet (distinct_types cols (frame st))))
         else Val tt).
Proof.
  intros Hlen Hcols. unfold CheckDataConsistency_apply.
  destruct (Nat.ltb_spec (length cols) 2) as [?|_]; [lia|].
  unfold bind.
  rewrite (for_acc_columns (fun b col s => b ∪ {[dtype s]})) by done.
  apply first_absent_None in Hcols. rewrite Hcols.
  rewrite foldl_types, (left_id_L ∅ (∪)).
  by destruct (_ <? _)%nat.
Qed.

(** C8: with fewer than two target columns the type-consistency check
    returns on every frame; with two or more (all in the frame) it raises
    [ValidDataException] exactly when the target columns have more than one
    distinct dtype, and the exception carries the set of those dtypes. *)
Theorem C8_type_consistency cols df :
  ((length cols < 2)%nat ->
     outcome (apply pd (CheckDataConsistency cols) df) = Val tt) /\
  ((2 <= length cols)%nat -> Forall (has_column df) cols ->
     ((1 < size (distinct_types cols df))%nat ->
        outcome (apply pd (CheckDataConsistency cols) df)
        = Exc (ValidDataException
                 "The passed columns are not of the same type, the collected types are:"
                 (PTypeSet (distinct_types cols df)))) /\
     ((size (distinct_types cols df) <= 1)%nat ->
        outcome (apply pd (CheckDataConsistency cols) df) = Val tt)).
Proof.
  split.
  - intros Hlen. simpl. unfold run_method, CheckDataConsistency_apply.
    by destruct (Nat.ltb_spec (length cols) 2) as [?|?]; [|lia].
  - intros Hlen Hcols. simpl. unfold run_method.
    rewrite CheckDataConsistency_apply_eval by done. simpl.
    destruct (Nat.ltb_spec 1 (size (distinct_types cols df))); split; intros; (done || lia).
Qed.

End Consistency.

(** ** The forbidden-value check *)

Section Gibberish.

Variable pd : PandasDates.
Variable gibberish_list : list value.

Lemma map_cells_gibberish col vs (st : St (gmap string value)) :
  map_cells (_check_gibberish gibberish_list col) vs st
  = (mkSt (record_cells gibberish_list col vs (issues st)) (frame st),
     Val ((fun _ => VNone) <$> vs)).
Proof.
  revert st. induction vs as [|v vs IH]; intros [m df]; cbn [map_cells]; [done|].
  unfold bind at 1, _check_gibberish at 1.
  destruct (py_in v gibberish_list) eqn:E; cbn;
    unfold bind at 1; rewrite IH; cbn; unfold record_cells; cbn; by rewrite E.
Qed.

Lemma for_each_gibberish cols (st : St (gmap string value)) :
  Forall (has_column (frame st)) cols ->
  for_each cols (fun col =>
    do s <- getitem col;
    Series_apply (_check_gibberish gibberish_list col) s ;; ret tt) st
  = (mkSt (record_columns gibberish_list (frame st) cols (issues st)) (frame st), Val tt).
Proof.
  revert st. induction cols as [|c cols IH]; intros [m df] Hcols; simpl in *; [done|].
  inversion Hcols as [|? ? Hc Hrest]; subst.
  unfold bind at 1. unfold bind at 1. rewrite getitem_column by done. simpl.
  unfold Series_apply, bind at 1. unfold bind at 1.
  rewrite map_cells_gibberish. simpl.
  rewrite IH by done. done.
Qed.

Lemma CheckGibberrish_apply_eval cols (st : St (gmap string value)) :
  Forall (has_column (frame st)) cols ->
  let found := record_columns gibberish_list (frame st) cols (issues st) in
  CheckGibberrish_apply cols gibberish_list st
  = (mkSt found (frame st),
     if bool_decide (found ≠ ∅)
     then Exc (ValidDataException "Gibberish inputs found" (PDict found))
     else Val tt).
Proof.
  intros Hcols found. unfold CheckGibberrish_apply, bind at 1.
  rewrite for_each_gibberish by done.
  unfold bind, get_issues. simpl. fold found.
  by destruct (bool_decide _).
Qed.

(** Later matches overwrite earlier ones. *)
Lemma record_cells_lookup col vs (m : gmap string value) c :
  record_cells gibberish_list col vs m !! c
  = if decide (c = col)
    then match last_match gibberish_list vs with
         | Some v => Some v
         | None => m !! c
         end
    else m !! c.
Proof.
  unfold record_cells, last_match. revert m.
  induction vs as [|v vs IH]; intros m; cbn [foldl].
  - rewrite filter_nil. by destruct (decide _).
  - rewrite IH, filter_cons. clear IH.
    destruct (py_in v gibberish_list) eqn:Hin.
    + rewrite (decide_True (P := true = true)) by done. rewrite last_cons.
      destruct (decide (c = col)) as [->|Hne].
      * destruct (last _); [done|]. by rewrite lookup_insert_eq.
      * by rewrite lookup_insert_ne.
    + by rewrite (decide_False (P := false = true)) by congruence.
Qed.

Lemma record_columns_lookup df cols (m : gmap string value) c :
  record_columns gibberish_list df cols m !! c
  = if decide (c ∈ cols)
    then match last_match gibberish_list (values (column df c)) with
         | Some v => Some v
         | None => m !! c
         end
    else m !! c.
Proof.
  unfold record_columns. revert m.
  induction cols as [|col cols IH]; intros m; cbn [foldl].
  - destruct (decide (c ∈ [])) as [Hin|_]; [|done]. by apply not_elem_of_nil in Hin.
  - rewrite IH, record_cells_lookup. clear IH.
    destruct (decide (c ∈ col :: cols)) as [Hin|Hin];
      destruct (decide (c ∈ cols)) as [Hin'|Hin'];
      destruct (decide (c = col)) as [->|Hne];
      try done; try (by destruct (last_match _ _));
      exfalso; rewrite elem_of_cons in Hin; tauto.
Qed.

Lemma last_match_is_Some vs :
  is_Some (last_match gibberish_list vs)
  <-> exists v, v ∈ vs /\ py_in v gibberish_list = true.
Proof.
  unfold last_match. rewrite last_is_Some. split.
  - intros Hne. destruct (filter _ vs) as [|v l] eqn:E; [done|].
    assert (v ∈ filter (fun v => py_in v gibberish_list = true) vs) as Hv
      by (rewrite E; apply list_elem_of_here).
    apply list_elem_of_filter in Hv. exists v. tauto.
  - intros (v & Hv & Hg) E.
    assert (v ∈ filter (fun v => py_in v gibberish_list = true) vs) as Hf
      by (by apply list_elem_of_filter).
    rewrite E in Hf. by apply not_elem_of_nil in Hf.
Qed.

(** X20: a forbidden-value check as constructed, applied to a frame that has
    its target columns, raises [ValidDataException] exactly when some cell
    of some target column is [in] the forbidden list; the mapping it carries
    sends each target column with a match to the last matching cell of the
    column, in storage order, and holds nothing else. *)
Theorem CheckGibberrish_fresh_last_match cols df :
  Forall (has_column df) cols ->
  exists found : gmap string value,
    (forall col, found !! col =
       if decide (col ∈ cols)
       then last_match gibberish_list (values (column df col))
       else None) /\
    (found <> ∅ <->
       exists col v, col ∈ cols /\ v ∈ values (column df col) /\
                     py_in v gibberish_list = true) /\
    outcome (apply pd (CheckGibberrish_init cols gibberish_list) df)
    = if decide (found = ∅) then Val tt
      else Exc (ValidDataException "Gibberish inputs found" (PDict found)).
Proof.
  intros Hcols.
  set (found := record_columns gibberish_list df cols ∅).
  assert (Hlook : forall col, found !! col =
       if decide (col ∈ cols)
       then last_match gibberish_list (values (column df col))
       else None).
  { intros col. unfold found. rewrite record_columns_lookup, lookup_empty.
    destruct (decide _); [|done]. by destruct (last_match _ _). }
  exists found. split; [done|]. split.
  - split.
    + intros (col & v & Hv)%map_choose. rewrite Hlook in Hv.
      destruct (decide (col ∈ cols)) as [Hin|]; [|done].
      destruct (proj1 (last_match_is_Some _) (mk_is_Some _ _ Hv)) as (w & ? & ?).
      by exists col, w.
    + intros (col & v & Hin & Hv & Hg) E.
      assert (is_Some (found !! col)) as [w Hw].
      { rewrite Hlook, decide_True by done.
        apply last_match_is_Some. by exists v. }
      rewrite E, lookup_empty in Hw. done.
  - unfold CheckGibberrish_init. simpl. unfold run_method.
    rewrite CheckGibberrish_apply_eval by done. simpl. fold found.
    destruct (decide (found = ∅)) as [->|Hne].
    + by rewrite bool_decide_eq_false_2 by (by intros ?).
    + by rewrite bool_decide_eq_true_2.
Qed.

End Gibberish.

(** ** The runner *)

Section RunnerProperties.

Variable pd : PandasDates.

(** A run over valid references always ends. *)
Lemma run_checks_total refs (h : ObjStore) df log :
  Forall (fun r => is_Some (h !! r)) refs -> is_Some (run_checks pd refs h df log).
Proof.
  revert h df log. induction refs as [|r refs IH]; intros h df log Hrefs; simpl.
  - by eexists.
  - inversion Hrefs as [|? ? [c Hc] Hrest]; subst. rewrite Hc. simpl.
    destruct (outcome (apply pd c df)); [|by eexists].
    apply IH. eapply Forall_impl; [exact Hrest|].
    intros r' Hr'. simpl in Hr'. rewrite lookup_insert_is_Some. 
    destruct (decide (r = r')); auto.
Qed.

Lemma run_checks_all_return refs (h : ObjStore) df h' df' log :
  all_return pd refs h df h' df' ->
  run_checks pd refs h df log = Some (mkRun h' df' (log ++ refs) (Val tt)).
Proof.
  intros Hall. revert log.
  induction Hall as [h df|r rest h df c h' df' Hc Hout _ IH]; intros log; simpl.
  - by rewrite app_nil_r.
  - rewrite Hc. simpl. rewrite Hout, IH. by rewrite <- app_assoc.
Qed.

Lemma run_checks_first_failure pre r post (h : ObjStore) df h1 df1 c e log :
  all_return pd pre h df h1 df1 ->
  h1 !! r = Some c ->
  outcome (apply pd c df1) = Exc e ->
  run_checks pd (pre ++ r :: post) h df log
  = Some (mkRun (<[r := self' (apply pd c df1)]> h1) (data' (apply pd c df1))
            (log ++ pre ++ [r]) (Exc e)).
Proof.
  intros Hall Hr He. revert log.
  induction Hall as [h df|r0 rest h df c0 h' df' Hc Hout _ IH]; intros log; simpl.
  - by rewrite Hr; simpl; rewrite He.
  - rewrite Hc. simpl. rewrite Hout, (IH Hr He). by rewrite <- app_assoc.
Qed.

Lemma all_return_frame refs (h : ObjStore) df h' df' r' :
  all_return pd refs h df h' df' -> r' ∉ refs -> h' !! r' = h !! r'.
Proof.
  induction 1 as [h df|r rest h df c h' df' Hc Hout _ IH]; intros Hnot; [done|].
  apply not_elem_of_cons in Hnot as [Hne Hnot].
  rewrite (IH Hnot). by rewrite lookup_insert_ne.
Qed.

Lemma all_return_or_first_failure refs (h : ObjStore) df :
  Forall (fun r => is_Some (h !! r)) refs ->
  (exists h' df', all_return pd refs h df h' df') \/
  (exists pre r post c h1 df1 e,
     refs = pre ++ r :: post /\
     all_return pd pre h df h1 df1 /\
     h1 !! r = Some c /\
     outcome (apply pd c df1) = Exc e).
Proof.
  revert h df. induction refs as [|r refs IH]; intros h df Hrefs.
  - left. exists h, df. constructor.
  - inversion Hrefs as [|? ? [c Hc] Hrest]; subst.
    destruct (outcome (apply pd c df)) as [[]|e] eqn:Hout.
    + destruct (IH (<[r := self' (apply pd c df)]> h) (data' (apply pd c df)))
        as [(h' & df' & Hall)|
            (pre & r0 & post & c0 & h1 & df1 & e & -> & Hall & Hc0 & He)].
      * eapply Forall_impl; [exact Hrest|].
        intros r' Hr'. simpl in Hr'. rewrite lookup_insert_is_Some.
        destruct (decide (r = r')); auto.
      * left. exists h', df'. by econstructor.
      * right. exists (r :: pre), r0, post, c0, h1, df1, e.
        split; [done|]. split; [by econstructor|done].
    + right. exists [], r, refs, c, h, df, e.
      split; [done|]. split; [constructor|done].
Qed.

(** C1: [check_data] applies the attached checks to the frame in insertion
    order and stops at the first call of [apply] that raises.  When every
    check returns, each applied to what the one before left, the run
    returns, having entered all of them in order.  When the checks before
    one return and that one raises, the exception of that call is the result
    of the run, the checks after it are not entered, and the objects the run
    did not enter are as before.  With every reference valid, one of the two
    is the case. *)
Theorem C1_check_data_stops_at_first_failure (h : ObjStore) ds :
  (forall h' df',
     all_return pd (_checks ds) h (data_source ds) h' df' ->
     check_data pd h ds = Some (mkRun h' df' (_checks ds) (Val tt))) /\
  (forall pre r post c h1 df1 e,
     _checks ds = pre ++ r :: post ->
     all_return pd pre h (data_source ds) h1 df1 ->
     h1 !! r = Some c ->
     outcome (apply pd c df1) = Exc e ->
     check_data pd h ds
     = Some (mkRun (<[r := self' (apply pd c df1)]> h1) (data' (apply pd c df1))
               (pre ++ [r]) (Exc e)) /\
     (forall r', r' ∉ pre ++ [r] ->
        (<[r := self' (apply pd c df1)]> h1) !! r' = h !! r')) /\
  (Forall (fun r => is_Some (h !! r)) (_checks ds) ->
   (exists h' df', all_return pd (_checks ds) h (data_source ds) h' df') \/
   (exists pre r post c h1 df1 e,
      _checks ds = pre ++ r :: post /\
      all_return pd pre h (data_source ds) h1 df1 /\
      h1 !! r = Some c /\
      outcome (apply pd c df1) = Exc e)).
Proof.
  unfold check_data. split; [|split].
  - intros h' df' Hall. by rewrite (run_checks_all_return _ _ _ _ _ [] Hall).
  - intros pre r post c h1 df1 e -> Hall Hc He. split.
    + by rewrite (run_checks_first_failure _ _ post _ _ _ _ _ _ [] Hall Hc He).
    + intros r' Hr'. apply not_elem_of_app in Hr' as [Hr' Hne].
      rewrite lookup_insert_ne by (intros ->; apply Hne, list_elem_of_here).
      by apply (all_return_frame _ _ _ _ _ _ Hall).
  - apply all_return_or_first_failure.
Qed.

End RunnerProperties.

(** ** Removing a check *)

Lemma list_remove_Some x l :
  x ∈ l ->
  exists pre post, l = pre ++ x :: post /\ (x ∉ pre) /\ list_remove x l = Some (pre ++ post).
Proof.
  induction l as [|y l IH]; intros Hin; [by apply not_elem_of_nil in Hin|].
  simpl. destruct (decide (x = y)) as [->|Hne].
  - exists [], l. split; [done|]. split; [apply not_elem_of_nil|done].
  - apply elem_of_cons in Hin as [?|Hin]; [done|].
    destruct (IH Hin) as (pre & post & -> & Hpre & ->).
    exists (y :: pre), post. split; [done|]. split; [|done].
    apply not_elem_of_cons. done.
Qed.

Lemma list_remove_None x l : x ∉ l -> list_remove x l = None.
Proof.
  induction l as [|y l IH]; intros Hnot; [done|].
  apply not_elem_of_cons in Hnot as [Hne Hnot].
  simpl. rewrite decide_False by done. by rewrite IH.
Qed.

(** C3 (amended): [remove_check] drops the first entry that is the very
    object passed (the classes define no equality, so entries are compared
    by identity) and keeps the other entries in their order; when the list
    does not hold that object it raises [ValueError] and keeps the list. *)
Theorem C3_remove_check_by_identity ds check :
  (check ∈ _checks ds ->
     exists pre post,
       _checks ds = pre ++ check :: post /\ (check ∉ pre) /\
       remove_check ds check
       = (mkDataSource (data_name ds) (data_source ds) (pre ++ post), Val tt)) /\
  (check ∉ _checks ds ->
     remove_check ds check = (ds, Exc (ValueError "list.remove(x): x not in list"))).
Proof.
  unfold remove_check. split.
  - intros Hin. destruct (list_remove_Some _ _ Hin) as (pre & post & E & Hpre & Hrem).
    exists pre, post. by rewrite Hrem.
  - intros Hnot. by rewrite list_remove_None.
Qed.

(** ** Missing target columns *)

Lemma raises_only_ret {F A} allowed (a : A) : raises_only allowed (@ret F A a).
Proof. by intros st st' e. Qed.

Lemma raises_only_raise {F A} (allowed : exn -> Prop) e :
  allowed e -> raises_only allowed (@raise F A e).
Proof. intros He st st' e' [= _ <-]. done. Qed.

Lemma raises_only_modify_issues {F} allowed (f : F -> F) :
  raises_only allowed (modify_issues f).
Proof. by intros st st' e. Qed.

Lemma raises_only_bind {F A B} allowed (m : M F A) (k : A -> M F B) :
  raises_only allowed m -> (forall a, raises_only allowed (k a)) ->
  raises_only allowed (bind m k).
Proof.
  intros Hm Hk st st' e. unfold bind.
  destruct (m st) as [st1 [a|e1]] eqn:E.
  - apply Hk.
  - intros [= _ <-]. eapply Hm, E.
Qed.

Lemma raises_only_map_cells {F} allowed (f : value -> M F value) vs :
  (forall v, raises_only allowed (f v)) -> raises_only allowed (map_cells f vs).
Proof.
  intros Hf. induction vs as [|v vs IH]; simpl.
  - apply raises_only_ret.
  - apply raises_only_bind; [done|]. intros v'.
    apply raises_only_bind; [done|]. intros. apply raises_only_ret.
Qed.

Lemma raises_only_Series_apply {F} allowed (f : value -> M F value) s :
  (forall v, raises_only allowed (f v)) -> raises_only allowed (Series_apply f s).
Proof.
  intros Hf. apply raises_only_bind.
  - by apply raises_only_map_cells.
  - intros. apply raises_only_ret.
Qed.

Lemma assoc_lookup_set c col s cs :
  assoc_lookup c (assoc_set col s cs)
  = if decide (c = col) then Some s else assoc_lookup c cs.
Proof.
  induction cs as [|[name s0] cs IH]; simpl.
  - destruct (decide (col = c)), (decide (c = col)); congruence.
  - destruct (decide (name = col)) as [->|Hne]; simpl.
    + destruct (decide (col = c)), (decide (c = col)); congruence.
    + rewrite IH. destruct (decide (name = c)) as [->|]; [|done].
      by rewrite decide_False.
Qed.







Lemma raises_only_if {F A} allowed (b : bool) (m1 m2 : M F A) :
  raises_only allowed m1 -> raises_only allowed m2 ->
  raises_only allowed (if b then m1 else m2).
Proof. by destruct b. Qed.



Lemma run_method_exc {F} (m : M F unit) found store df st' e :
  m (mkSt found df) = (st', Exc e) -> outcome (run_method m found store df) = Exc e.
Proof. intros E. unfold run_method. by rewrite E. Qed.


Section MissingColumns.

Variable pd : PandasDates.


Lemma read_only_normalize_cell {F} v : read_only (@normalize_cell pd F v).
Proof. unfold normalize_cell. destruct (pd_Timestamp pd v); auto with frame_db. Qed.






End MissingColumns.

(** ** Timestamp normalisation *)

Lemma digit_val_digit d : (d < 10)%nat -> digit_val (digit d) = Some d.
Proof.
  intros Hd. do 10 (destruct d as [|d]; [reflexivity|]). lia.
Qed.

#[local] Arguments digit : simpl never.
#[local] Arguments digit_val : simpl never.
#[local] Arguments Nat.div : simpl never.
#[local] Arguments Nat.modulo : simpl never.
#[local] Arguments Nat.mul : simpl never.

Lemma read_digit_digit d rest :
  (d < 10)%nat -> read_digit (String (digit d) rest) = Some (d, rest).
Proof. intros Hd. unfold read_digit. by rewrite digit_val_digit. Qed.

Lemma append_cons a s r : String a s +:+ r = String a (s +:+ r).
Proof. reflexivity. Qed.

Lemma append_nil r : "" +:+ r = r.
Proof. reflexivity. Qed.

Lemma append_nil_r s : s +:+ "" = s.
Proof. induction s as [|a s IH]; [done|]. by rewrite append_cons, IH. Qed.

Lemma expect_same c rest : expect c (String c rest) = Some rest.
Proof. unfold expect. by rewrite decide_True. Qed.

Ltac option_step := cbn [mbind option_bind].

Lemma read2_pad2 n rest :
  (n < 100)%nat -> read2 (pad2 n +:+ rest) = Some (n, rest).
Proof.
  intros Hn. unfold read2, pad2. rewrite !append_cons, append_nil.
  rewrite read_digit_digit by (apply Nat.Div0.div_lt_upper_bound; lia).
  option_step.
  rewrite read_digit_digit by (apply Nat.mod_upper_bound; lia).
  option_step. do 2 f_equal. pose proof (Nat.div_mod_eq n 10). lia.
Qed.

Lemma read4_pad4 n rest :
  (n < 1000 * 10)%nat -> read4 (pad4 n +:+ rest) = Some (n, rest).
Proof.
  intros Hn. unfold read4, read2, pad4. rewrite !append_cons, append_nil.
  rewrite read_digit_digit by (apply Nat.Div0.div_lt_upper_bound; lia).
  option_step. rewrite read_digit_digit by (apply Nat.mod_upper_bound; lia).
  option_step. rewrite read_digit_digit by (apply Nat.mod_upper_bound; lia).
  option_step. rewrite read_digit_digit by (apply Nat.mod_upper_bound; lia).
  option_step. do 2 f_equal.
  pose proof (Nat.div_mod_eq n 10) as H1.
  pose proof (Nat.div_mod_eq (n / 10) 10) as H2.
  pose proof (Nat.div_mod_eq (n / 100) 10) as H3.
  rewrite Nat.Div0.div_div in H2, H3.
  change (10 * 10)%nat with 100%nat in H2.
  change (100 * 10)%nat with 1000%nat in H3.
  lia.
Qed.

Lemma valid_ts_bounds t :
  valid_ts t = true ->
  (year t < 1000 * 10 /\ month t < 100 /\ day t < 100 /\
   hour t < 100 /\ minute t < 100 /\ second t < 100)%nat.
Proof.
  unfold valid_ts. rewrite !andb_true_iff.
  rewrite !N.leb_le, !Nat.leb_le, !Nat.ltb_lt. intros Hv. destruct_and!.
  assert (days_in_month (year t) (month t) <= 31)%nat.
  { unfold days_in_month. generalize (month t) as m. intros m.
    do 13 (destruct m as [|m]; [try lia; destruct (leap_year _); lia|]). lia. }
  lia.
Qed.

Lemma valid_ts_whole_second t : valid_ts t = true -> valid_ts (whole_second t) = true.
Proof.
  unfold valid_ts. cbn [whole_second year month day hour minute second nanosecond].
  rewrite !andb_true_iff. intros Hv. destruct_and!. done.
Qed.

(** Reading back what [strftime] wrote gives the timestamp, less its
    sub-second part. *)
Lemma parse_iso_strftime t :
  valid_ts t = true -> parse_iso (strftime t) = Some (whole_second t).
Proof.
  intros Hv. destruct (valid_ts_bounds t Hv) as (Hy & Hm & Hd & Hh & Hmi & Hs).
  unfold parse_iso, strftime. rewrite !append_cons, !append_nil.
  rewrite read4_pad4 by done. option_step. rewrite expect_same. option_step.
  rewrite read2_pad2 by done. option_step. rewrite expect_same. option_step.
  rewrite read2_pad2 by done. option_step. rewrite expect_same. option_step.
  rewrite read2_pad2 by done. option_step. rewrite expect_same. option_step.
  rewrite read2_pad2 by done. option_step. rewrite expect_same. option_step.
  rewrite <- (append_nil_r (pad2 (second t))).
  rewrite read2_pad2 by done. option_step.
  fold (whole_second t). by rewrite valid_ts_whole_second.
Qed.

Lemma strftime_whole_second t : strftime (whole_second t) = strftime t.
Proof. done. Qed.

Section Normalisation.

Variable pd : PandasDates.
Hypothesis Hiso : reads_iso pd.

Lemma normalize_canonical {F} v (st : St F) :
  canonical v -> normalize_cell pd v st = (st, Val v).
Proof.
  intros (t & Hv & ->). unfold normalize_cell.
  rewrite (Hiso _ _ (parse_iso_strftime t Hv)).
  by rewrite strftime_whole_second.
Qed.

Lemma map_cells_canonical {F} vs (st : St F) :
  Forall canonical vs -> map_cells (normalize_cell pd) vs st = (st, Val vs).
Proof.
  induction 1 as [|v vs Hv Hvs IH]; [done|].
  cbn [map_cells]. unfold bind. rewrite normalize_canonical by done.
  by rewrite IH.
Qed.

Lemma assoc_set_same col s cs :
  assoc_lookup col cs = Some s -> assoc_set col s cs = cs.
Proof.
  induction cs as [|[name s0] cs IH]; [done|]. cbn [assoc_lookup assoc_set].
  destruct (decide (name = col)); intros E; [by simplify_eq|].
  by rewrite IH.
Qed.

Lemma infer_dtype_idem d vs : infer_dtype (infer_dtype d vs) vs = infer_dtype d vs.
Proof. by destruct vs. Qed.

(** What one iteration of the loop of [CheckTimeStamps.apply] does when it
    returns. *)
Lemma normalize_column_inv col (st st1 : St unit) :
  (do s <- getitem col;
   do s' <- Series_apply (normalize_cell pd) s;
   setitem col s') st = (st1, Val tt) ->
  exists s s',
    assoc_lookup col (columns (frame st)) = Some s /\ settled s' /\
    frame st1 = mkDataFrame (index_len (frame st))
                  (assoc_set col s' (columns (frame st))).
Proof.
  unfold bind at 1, getitem.
  destruct (assoc_lookup col (columns (frame st))) as [s|] eqn:E; [|done].
  unfold bind at 1.
  pose proof (read_only_Series_apply (normalize_cell pd) s
                (fun v => read_only_normalize_cell pd v) st) as Hro.
  destruct (Series_apply (normalize_cell pd) s st) as [st' [s'|e]] eqn:Es; [|done].
  simpl in Hro. unfold setitem. intros [= <-].
  exists s, s'. split; [done|]. split; [|by rewrite Hro].
  unfold Series_apply, bind in Es.
  destruct (map_cells _ _ st) as [st2 [vs|e]]; [|done].
  unfold ret in Es. simplify_eq. unfold settled. simpl. apply infer_dtype_idem.
Qed.

(** After a run of the loop that returned, every target column exists and
    carries the dtype of its cells. *)
Lemma normalize_loop_settled cols done (st st' : St unit) :
  (forall col, col ∈ done ->
     has_column (frame st) col /\ settled (column (frame st) col)) ->
  CheckTimeStamps_apply pd cols st = (st', Val tt) ->
  forall col, col ∈ done ++ cols ->
    has_column (frame st') col /\ settled (column (frame st') col).
Proof.
  unfold CheckTimeStamps_apply. revert done st.
  induction cols as [|c cols IH]; intros done st Hdone Hrun; cbn [for_each] in Hrun.
  - unfold ret in Hrun. simplify_eq. by rewrite app_nil_r.
  - unfold bind at 1 in Hrun.
    destruct ((do s <- getitem c; do s' <- Series_apply (normalize_cell pd) s;
               setitem c s') st) as [st1 [[]|e]] eqn:Ec; [|done].
    destruct (normalize_column_inv _ _ _ Ec) as (s & s' & Hs & Hs' & Hframe).
    intros col Hcol.
    apply (IH (done ++ [c]) st1); [|done|by rewrite <- app_assoc].
    intros col' Hcol'. unfold has_column, column. rewrite Hframe. simpl.
    rewrite assoc_lookup_set.
    destruct (decide (col' = c)) as [->|Hne]; [by split; [eexists|]|].
    apply elem_of_app in Hcol' as [Hcol'|Hcol'].
    + apply Hdone, Hcol'.
    + apply list_elem_of_singleton in Hcol'. done.
Qed.

(** A frame whose target columns hold canonical texts is a fixed point. *)
Lemma CheckTimeStamps_fixed cols df :
  (forall col, col ∈ cols ->
     has_column df col /\ settled (column df col) /\
     Forall canonical (values (column df col))) ->
  CheckTimeStamps_apply pd cols (mkSt tt df) = (mkSt tt df, Val tt).
Proof.
  unfold CheckTimeStamps_apply.
  induction cols as [|c cols IH]; intros Hcols; [done|].
  cbn [for_each]. unfold bind at 1.
  destruct (Hcols c) as ([s Hs] & Hset & Hcan); [apply list_elem_of_here|].
  unfold column in Hset, Hcan. rewrite Hs in Hset, Hcan. simpl in Hset, Hcan.
  assert ((do s <- getitem c; do s' <- Series_apply (normalize_cell pd) s;
           setitem c s') (mkSt tt df) = (mkSt tt df, Val tt)) as ->.
  { unfold bind at 1, getitem. simpl. rewrite Hs.
    unfold bind at 1, Series_apply, bind at 1.
    rewrite map_cells_canonical by done.
    unfold ret, setitem. simpl. rewrite Hset.
    destruct s as [d vs]. simpl. rewrite assoc_set_same by done.
    by destruct df. }
  apply IH. intros col Hcol. apply Hcols. by apply list_elem_of_further.
Qed.

(** C9: when a normalisation has returned and has left canonical texts in
    the target columns, a second normalisation of the resulting frame
    returns too and rewrites every cell to the text it already holds: the
    frame is unchanged. *)
Theorem C9_normalization_idempotent cols df :
  outcome (apply pd (CheckTimeStamps cols) df) = Val tt ->
  (forall col v, col ∈ cols ->
     v ∈ values (column (data' (apply pd (CheckTimeStamps cols) df)) col) ->
     canonical v) ->
  apply pd (CheckTimeStamps cols) (data' (apply pd (CheckTimeStamps cols) df))
  = mkEffect (CheckTimeStamps cols) (data' (apply pd (CheckTimeStamps cols) df)) (Val tt).
Proof.
  cbn [apply]. unfold run_method.
  destruct (CheckTimeStamps_apply pd cols (mkSt tt df)) as [[[] df1] r] eqn:Erun.
  simpl. intros -> Hcan.
  pose proof (normalize_loop_settled cols [] _ _
                (fun col H => False_ind _ (not_elem_of_nil col H)) Erun) as Hset.
  simpl in Hset.
  rewrite CheckTimeStamps_fixed; [done|].
  intros col Hcol. destruct (Hset col Hcol) as [Hhas Hs].
  split; [done|]. split; [done|].
  apply Forall_forall. intros v Hv. by apply (Hcan col).
Qed.

End Normalisation.

(** ** Accumulators kept between calls *)

(** C2 fails on the code: [_found_issues] is created in [__init__] and never
    emptied, so what one call of [apply] recorded is still there in the
    next.  A forbidden-value check and a range check are applied to a frame
    that breaks their rule and then to one that satisfies it (a fresh
    instance returns on it): the second call raises with the findings of the
    first.  The duplicate check, whose list is local to [apply], returns. *)
Theorem C2_second_apply_reports_stale_issues :
  let gib := CheckGibberrish_init ["c"] [VStr "??"] in
  let rng := CheckNumWithinRange_init ["c"] 0 10 in
  let dirty := mkDataFrame 2 [("c", mkSeries object_ [VStr "??"; VInt 11])] in
  let clean := mkDataFrame 2 [("c", mkSeries int64 [VInt 5; VInt 6])] in
  outcome (apply iso_dates gib clean) = Val tt /\
  outcome (apply iso_dates (self' (apply iso_dates gib dirty)) clean)
  = Exc (ValidDataException "Gibberish inputs found" (PDict {[ "c" := VStr "??" ]})) /\
  outcome (apply iso_dates rng clean) = Val tt /\
  outcome (apply iso_dates
             (self' (apply iso_dates rng (mkDataFrame 1 [("c", int_column [11])]))) clean)
  = Exc (ValidDataException "Inputs outside the specified ranges found" (PList ["c"])) /\
  outcome (apply iso_dates
             (self' (apply iso_dates (CheckDuplicate ["c"])
                       (mkDataFrame 2 [("c", int_column [5; 5])]))) clean)
  = Val tt.
Proof. vm_compute. done. Qed.

(** C6 fails on the code for an instance that has been applied before, by
    the defect of C2: the mapping [_found_issues] is never emptied.  With the
    forbidden list of the claim's example, the first call reports the last
    match of column [c], as the claim says.  The same instance applied to a
    table in which no cell of a target column is in the forbidden list
    raises all the same, and on a table in which only column [d] has a match
    its mapping also holds column [c], with the cell of the earlier table.  A
    fresh instance returns on the table without a match. *)
Theorem C6_stale_instance_raises_without_match :
  let G := [VStr "??"; VStr "N/A"] in
  let gib := CheckGibberrish_init ["c"; "d"] G in
  let dirty := mkDataFrame 3 [("c", text_column ["??"; "x"; "N/A"]);
                              ("d", text_column ["a"; "b"; "c"])] in
  let clean := mkDataFrame 3 [("c", text_column ["x"; "y"; "z"]);
                              ("d", text_column ["a"; "b"; "c"])] in
  let other := mkDataFrame 3 [("c", text_column ["x"; "y"; "z"]);
                              ("d", text_column ["a"; "??"; "b"])] in
  let used := self' (apply iso_dates gib dirty) in
  outcome (apply iso_dates gib dirty)
  = Exc (ValidDataException "Gibberish inputs found" (PDict {[ "c" := VStr "N/A" ]})) /\
  Forall (fun col => Forall (fun v => py_in v G = false) (values (column clean col)))
    ["c"; "d"] /\
  outcome (apply iso_dates gib clean) = Val tt /\
  outcome (apply iso_dates used clean)
  = Exc (ValidDataException "Gibberish inputs found" (PDict {[ "c" := VStr "N/A" ]})) /\
  Forall (fun v => py_in v G = false) (values (column other "c")) /\
  outcome (apply iso_dates used other)
  = Exc (ValidDataException "Gibberish inputs found"
           (PDict {[ "c" := VStr "N/A"; "d" := VStr "??" ]})).
Proof.
  vm_compute. repeat split; try done; repeat constructor.
Qed.

(** Well-formedness of a frame that is written out. *)
Ltac closed_frame :=
  split; [apply (bool_decide_unpack _); by vm_compute | by repeat constructor].

(** C7 as worded fails for a check without target columns: on a frame
    without rows it returns; it does not raise [DataException]. *)
Lemma C7_no_targets_no_error :
  let df := mkDataFrame 0 [("a", mkSeries object_ [])] in
  wf_DataFrame df /\ index_len df = 0%nat /\
  outcome (apply iso_dates (CheckBlank []) df) = Val tt /\
  ~ (exists msg args,
       outcome (apply iso_dates (CheckBlank []) df) = Exc (DataException msg args)).
Proof.
  simpl. split; [closed_frame|]. split; [done|]. split; [done|].
  by intros (msg & args & ?).
Qed.

Lemma C7_presence_check_witness :
  let df := mkDataFrame 0 [("a", mkSeries object_ []); ("b", mkSeries int64 [])] in
  outcome (apply iso_dates (CheckBlank ["a"; "b"]) df)
  = Exc (DataException "Empty columns found" (PList ["a"; "b"])).
Proof.
  intros df.
  refine (proj1 (C7_presence_check iso_dates ["a"; "b"] df _ _) _ _).
  - closed_frame.
  - repeat constructor; by eexists.
  - reflexivity.
  - done.
Defined.

Lemma C10_checks_read_only_witness :
  data' (apply iso_dates (CheckIsNaN ["a"])
           (mkDataFrame 2 [("a", mkSeries float64 [VInt 1; VNaN None])]))
  = mkDataFrame 2 [("a", mkSeries float64 [VInt 1; VNaN None])].
Proof.
  refine (proj1 (C10_checks_read_only iso_dates (CheckIsNaN ["a"]) _ _)).
  reflexivity.
Defined.

Lemma C5_inverted_range_witness :
  outcome (apply iso_dates (CheckNumWithinRange_init ["c"] 5 1)
             (mkDataFrame 1 [("c", int_column [3])]))
  = Exc (ValueError "The starting point (5) should be less than the ending point (1).").
Proof.
  unfold CheckNumWithinRange_init.
  rewrite (proj1 (C5_inverted_range iso_dates ["c"] 5 1 [] _ ltac:(lia))).
  reflexivity.
Defined.

Lemma C8_type_consistency_witness :
  let df := mkDataFrame 1 [("lat", mkSeries float64 [VNaN None]); ("lon", text_column ["x"])] in
  outcome (apply iso_dates (CheckDataConsistency ["lat"; "lon"]) df)
  = Exc (ValidDataException
           "The passed columns are not of the same type, the collected types are:"
           (PTypeSet {[float64; object_]})).
Proof.
  intros df.
  refine (eq_trans
    (proj1 (proj2 (C8_type_consistency iso_dates ["lat"; "lon"] df) _ _) _) _).
  - simpl. lia.
  - repeat constructor; by eexists.
  - vm_compute. lia.
  - vm_compute. reflexivity.
Defined.

(** The example given with C6: forbidden list ["??"; "N/A"], column
    ["??"; "x"; "N/A"]: the value reported for the column is "N/A". *)
Lemma CheckGibberrish_fresh_last_match_witness :
  let df := mkDataFrame 3 [("c", text_column ["??"; "x"; "N/A"])] in
  exists found : gmap string value,
    found !! "c" = Some (VStr "N/A") /\
    outcome (apply iso_dates (CheckGibberrish_init ["c"] [VStr "??"; VStr "N/A"]) df)
    = Exc (ValidDataException "Gibberish inputs found" (PDict found)).
Proof.
  intros df.
  destruct (CheckGibberrish_fresh_last_match iso_dates [VStr "??"; VStr "N/A"] ["c"] df)
    as (found & Hlook & _ & Hout).
  - repeat constructor; by eexists.
  - exists found. split.
    + rewrite Hlook. vm_compute. reflexivity.
    + rewrite Hout. destruct (decide (found = ∅)) as [E|]; [|done].
      specialize (Hlook "c"). rewrite E in Hlook. vm_compute in Hlook. discriminate.
Defined.

(** Three checks attached in order: the first returns, the second fails,
    the third would fail too; the third is not entered. *)
Lemma C1_check_data_stops_at_first_failure_witness :
  let h : ObjStore :=
    {[ 1%nat := CheckBlank ["a"]; 2%nat := CheckIsNaN ["a"];
       3%nat := CheckDuplicate ["a"] ]} in
  let df := mkDataFrame 3 [("a", mkSeries float64 [VInt 7; VNaN None; VInt 7])] in
  let ds :=
    add_check (add_check (add_check (DataSource_init "bikes" df) 1%nat) 2%nat) 3%nat in
  check_data iso_dates h ds
  = Some (mkRun h df [1%nat; 2%nat]
            (Exc (ValidDataException "Columns containing NaN values" (PList ["a"])))) /\
  outcome (apply iso_dates (CheckDuplicate ["a"]) df)
  = Exc (ValidDataException "Columns containing duplicate values" (PList ["a"])).
Proof.
  intros h df ds. split; [|by vm_compute].
  assert (all_return iso_dates [1%nat] h df h df) as Hall.
  { apply (all_return_cons iso_dates 1%nat [] h df (CheckBlank ["a"]) h df);
      [by vm_compute|by vm_compute|].
    replace (<[1%nat := self' (apply iso_dates (CheckBlank ["a"]) df)]> h) with h
      by (apply map_eq; intros i; destruct (decide (i = 1%nat)) as [->|];
          [by rewrite lookup_insert_eq|by rewrite lookup_insert_ne]).
    constructor. }
  destruct (proj1 (proj2 (C1_check_data_stops_at_first_failure iso_dates h ds))
              [1%nat] 2%nat [3%nat] (CheckIsNaN ["a"]) h df
              (ValidDataException "Columns containing NaN values" (PList ["a"]))
              eq_refl Hall) as [Hrun _].
  - by vm_compute.
  - by vm_compute.
  - rewrite Hrun. reflexivity.
Defined.

(** C3 as worded fails twice on one input: the list holds an object with
    the class and attributes of the one passed, and [remove_check] raises
    and removes nothing, where the structural removal would have emptied the
    list. *)
Lemma C3_structurally_equal_not_removed :
  let h : ObjStore := {[ 1%nat := CheckBlank ["a"]; 2%nat := CheckBlank ["a"] ]} in
  let ds := mkDataSource "bikes" (mkDataFrame 0 []) [1%nat] in
  h !! 1%nat = h !! 2%nat /\
  remove_structural h 2%nat (_checks ds) = [] /\
  remove_check ds 2%nat = (ds, Exc (ValueError "list.remove(x): x not in list")) /\
  remove_check ds 2%nat
  <> (mkDataSource (data_name ds) (data_source ds)
        (remove_structural h 2%nat (_checks ds)), Val tt).
Proof. vm_compute. done. Qed.

Lemma C3_remove_check_by_identity_witness :
  let ds := mkDataSource "bikes" (mkDataFrame 0 []) [4; 7; 4; 9]%nat in
  remove_check ds 7%nat = (mkDataSource "bikes" (mkDataFrame 0 []) [4; 4; 9]%nat, Val tt) /\
  remove_check ds 5%nat = (ds, Exc (ValueError "list.remove(x): x not in list")).
Proof.
  intros ds. split.
  - destruct (proj1 (C3_remove_check_by_identity ds 7%nat))
      as (pre & post & E & Hpre & _).
    + apply (bool_decide_unpack _). by vm_compute.
    + reflexivity.
  - apply (proj2 (C3_remove_check_by_identity ds 5%nat)).
    apply (bool_decide_unpack _). by vm_compute.
Defined.



Lemma date_reader_reads_iso : reads_iso date_reader.
Proof. intros s t Hs. simpl. by rewrite Hs. Qed.

(** A start time given as a bare date and one given in full: the first
    normalisation rewrites the former, the second changes nothing. *)
Lemma C9_normalization_idempotent_witness :
  let df := mkDataFrame 2
              [("starttime", text_column ["2014-02-01"; "2014-02-01 10:05:09"])] in
  let df1 := mkDataFrame 2
              [("starttime", text_column ["2014-02-01 00:00:00"; "2014-02-01 10:05:09"])] in
  data' (apply date_reader (CheckTimeStamps ["starttime"]) df) = df1 /\
  apply date_reader (CheckTimeStamps ["starttime"])
    (data' (apply date_reader (CheckTimeStamps ["starttime"]) df))
  = mkEffect (CheckTimeStamps ["starttime"])
      (data' (apply date_reader (CheckTimeStamps ["starttime"]) df)) (Val tt).
Proof.
  intros df df1. split; [by vm_compute|].
  apply (C9_normalization_idempotent date_reader date_reader_reads_iso).
  - by vm_compute.
  - intros col v Hcol Hv. apply list_elem_of_singleton in Hcol. subst col.
    assert (data' (apply date_reader (CheckTimeStamps ["starttime"]) df) = df1) as E
      by (by vm_compute).
    rewrite E in Hv. vm_compute in Hv.
    apply elem_of_cons in Hv as [->|Hv].
    { exists (mkTimestamp 2014 2 1 0 0 0 0). split; by vm_compute. }
    apply list_elem_of_singleton in Hv. subst v.
    exists (mkTimestamp 2014 2 1 10 5 9 0). split; by vm_compute.
Defined.

(** ** The examples of the specification, evaluated *)

Example duplicate_flagged :
  outcome (apply iso_dates (CheckDuplicate ["id"])
             (mkDataFrame 4 [("id", int_column [1; 2; 2; 3])]))
  = Exc (ValidDataException "Columns containing duplicate values" (PList ["id"])) /\
  outcome (apply iso_dates (CheckDuplicate ["id"])
             (mkDataFrame 3 [("id", int_column [1; 2; 3])]))
  = Val tt.
Proof. by vm_compute. Qed.

Example whitelist_offenders :
  outcome (apply iso_dates
             (CheckDataValidity_init ["colour"] [VStr "red"; VStr "blue"])
             (mkDataFrame 4 [("colour", text_column ["red"; "green"; "blue"; "green"])]))
  = Exc (ValidDataException "Incorrect values found"
           (PDictSet {[ "colour" := [VStr "green"] ]})).
Proof. by vm_compute. Qed.

Example relevancy_unexpected :
  outcome (apply iso_dates (CheckDataRelevancy [] ["a"])
             (mkDataFrame 1 [("a", int_column [1]); ("b", int_column [2])]))
  = Exc (DataException "Columns with irrelevant information found" (PList ["b"])).
Proof. by vm_compute. Qed.

Example null_flagged :
  outcome (apply iso_dates (CheckIsNaN ["n"])
             (mkDataFrame 3 [("n", mkSeries float64 [VInt 1; VNaN None; VInt 3])]))
  = Exc (ValidDataException "Columns containing NaN values" (PList ["n"])) /\
  outcome (apply iso_dates (CheckIsNaN ["n"])
             (mkDataFrame 3 [("n", int_column [1; 2; 3])]))
  = Val tt.
Proof. by vm_compute. Qed.

Example future_date_flagged :
  outcome (apply iso_dates
             (CheckFutureDates_init (mkTimestamp 2020 6 1 12 0 0 0) ["stoptime"])
             (mkDataFrame 2 [("stoptime",
                text_column ["2014-02-01 00:00:00"; "2021-01-01 00:00:00"])]))
  = Exc (ValidDataException "Future date found in column(s)" (PColSet {[ "stoptime" ]})).
Proof. by vm_compute. Qed.

Example range_flagged :
  outcome (apply iso_dates (CheckNumWithinRange_init ["age"; "n"] 0 120)
             (mkDataFrame 2 [("age", int_column [30; 130]); ("n", int_column [1; 2])]))
  = Exc (ValidDataException "Inputs outside the specified ranges found" (PList ["age"])).
Proof. by vm_compute. Qed.

Example main_of_solution :
  let bikes := mkDataFrame 1 [("starttime", text_column ["2014-02-01"]);
                              ("stoptime", text_column ["2014-02-01 00:06:22"])] in
  let h : ObjStore := {[ 1%nat := CheckTimeStamps ["starttime"; "stoptime"] ]} in
  let ds := add_check (DataSource_init "2014-02 - Citi Bike trip data.csv" bikes) 1%nat in
  (fun run => (result run, frame' run, invoked run)) <$> check_data date_reader h ds
  = Some (Val tt,
          mkDataFrame 1 [("starttime", text_column ["2014-02-01 00:00:00"]);
                         ("stoptime", text_column ["2014-02-01 00:06:22"])],
          [1%nat]).
Proof. by vm_compute. Qed.

(** * Further properties of the checks and of the runner *)

(** ** Checks that list the columns they flag *)

Lemma for_acc_pure {F A} (p : A -> bool) (xs acc : list A) (st : St F) :
  for_acc xs acc (fun acc x => if p x then ret (acc ++ [x]) else ret acc) st
  = (st, Val (acc ++ filter (fun x => p x = true) xs)).
Proof.
  revert acc. induction xs as [|x xs IH]; intros acc; cbn [for_acc].
  - unfold ret. by rewrite filter_nil, app_nil_r.
  - unfold bind. rewrite if_ret. unfold ret at 1. rewrite IH, filter_cons.
    destruct (p x) eqn:E.
    + rewrite decide_True by done. by rewrite <- app_assoc.
    + rewrite decide_False by congruence. done.
Qed.

(** The loop shared by the duplicate and the null check. *)
Lemma flag_scan {F} (p : Series -> bool) (P : string -> Prop)
    `{!forall c, Decision (P c)} msg (mk : string -> Payload -> exn) cols (st : St F) :
  Forall (has_column (frame st)) cols ->
  (forall col, p (column (frame st) col) = true <-> P col) ->
  (do acc <- for_acc cols [] (fun acc col =>
     do s <- getitem col;
     if p s then ret (acc ++ [col]) else ret acc);
   if truthy acc then raise (mk msg (PList acc)) else ret tt) st
  = (st, match filter P cols with
         | [] => Val tt
         | flagged => Exc (mk msg (PList flagged))
         end).
Proof.
  intros Hcols Hp. unfold bind at 1.
  rewrite (for_acc_columns (fun b col s => if p s then b ++ [col] else b)).
  2:{ intros b col st'. unfold bind.
      destruct (getitem col st') as [? [s|e]]; [apply if_ret|done]. }
  apply first_absent_None in Hcols. rewrite Hcols.
  rewrite (foldl_flag (fun col => p (column (frame st) col))). simpl.
  rewrite (list_filter_iff _ P) by done.
  by destruct (filter P cols).
Qed.

Section Reports.

Variable pd : PandasDates.

(** X1: on a frame that has the target columns, the duplicate check raises
    [ValidDataException] with the target columns in which two cells have
    the same value for pandas (all NaN count as one value, [None] as
    another), in target order, and returns when there is none; it changes
    neither the frame nor the object. *)
Theorem CheckDuplicate_reports_duplicate_columns cols df :
  Forall (has_column df) cols ->
  apply pd (CheckDuplicate cols) df
  = mkEffect (CheckDuplicate cols) df
      match duplicate_columns cols df with
      | [] => Val tt
      | dups => Exc (ValidDataException "Columns containing duplicate values" (PList dups))
      end.
Proof.
  intros Hcols. cbn [apply]. unfold run_method, CheckDuplicate_apply.
  rewrite (flag_scan (fun s => negb (is_unique s))
             (fun col => ~ NoDup (hash_key <$> values (column df col)))); [done|done|].
  intros col. unfold is_unique. rewrite negb_true_iff, bool_decide_eq_false. done.
Qed.

(** X2: on a frame that has the target columns, the null check raises
    [ValidDataException] with the target columns that hold a missing value,
    in target order, and returns when there is none. *)
Theorem CheckIsNaN_reports_null_columns cols df :
  Forall (has_column df) cols ->
  apply pd (CheckIsNaN cols) df
  = mkEffect (CheckIsNaN cols) df
      match null_columns cols df with
      | [] => Val tt
      | nulls => Exc (ValidDataException "Columns containing NaN values" (PList nulls))
      end.
Proof.
  intros Hcols. cbn [apply]. unfold run_method, CheckIsNaN_apply.
  rewrite (flag_scan isnull_any
             (fun col => Exists (fun v => is_missing v = true) (values (column df col))));
    [done|done|].
  intros col. unfold isnull_any. rewrite existsb_exists, Exists_exists.
  split; intros (v & Hv & Hm); exists v; (split; [|done]);
    by apply list_elem_of_In.
Qed.

(** X3: the relevancy check looks at the columns of the frame and at nothing
    else: whatever its target columns, it raises [DataException] with the
    columns of the frame that are not expected, in the order of the frame,
    and returns when every column is expected. *)
Theorem CheckDataRelevancy_reports_unexpected_columns cols expected_columns df :
  apply pd (CheckDataRelevancy cols expected_columns) df
  = mkEffect (CheckDataRelevancy cols expected_columns) df
      match unexpected_columns expected_columns df with
      | [] => Val tt
      | unexpected =>
          Exc (DataException "Columns with irrelevant information found" (PList unexpected))
      end.
Proof.
  cbn [apply]. unfold run_method, CheckDataRelevancy_apply, bind at 1, get_columns.
  unfold bind.
  rewrite (for_acc_pure (fun col => bool_decide (col ∉ expected_columns))).
  cbn [app frame]. unfold unexpected_columns.
  rewrite (list_filter_iff _ (fun col => col ∉ expected_columns))
    by (intros; apply bool_decide_eq_true).
  by destruct (filter _ _).
Qed.

End Reports.

Lemma CheckDuplicate_reports_duplicate_columns_witness :
  outcome (apply iso_dates (CheckDuplicate ["id"; "n"; "k"; "m"])
     (mkDataFrame 3 [("id", int_column [1; 2; 3]); ("n", int_column [4; 4; 5]);
                     ("k", mkSeries float64 [VNaN None; VInt 1; VNaN None]);
                     ("m", mkSeries object_ [VNone; VStr "a"; VNaN (Some 0%nat)])]))
  = Exc (ValidDataException "Columns containing duplicate values" (PList ["n"; "k"])).
Proof.
  rewrite CheckDuplicate_reports_duplicate_columns.
  - by vm_compute.
  - repeat constructor; by eexists.
Defined.

Lemma CheckIsNaN_reports_null_columns_witness :
  outcome (apply iso_dates (CheckIsNaN ["id"; "k"])
     (mkDataFrame 2 [("id", int_column [1; 2]); ("k", mkSeries float64 [VNaN None; VInt 1])]))
  = Exc (ValidDataException "Columns containing NaN values" (PList ["k"])).
Proof.
  rewrite CheckIsNaN_reports_null_columns.
  - by vm_compute.
  - repeat constructor; by eexists.
Defined.

(** ** The whitelist check *)

Lemma py_same_eq x y : py_same x y = true -> x = y.
Proof.
  destruct x as [| | |[a|]], y as [| | |[b|]]; cbn; try done;
    intros H; apply bool_decide_eq_true in H; congruence.
Qed.

Lemma py_in_elem_of x l : py_in x l = true -> x ∈ l.
Proof.
  unfold py_in. rewrite existsb_exists. intros (y & Hy & Hs).
  apply py_same_eq in Hs as ->. by apply list_elem_of_In.
Qed.

Lemma elem_of_py_set_add v s x : v ∈ py_set_add s x <-> v ∈ s \/ v = x.
Proof.
  unfold py_set_add. destruct (py_in x s) eqn:E.
  - apply py_in_elem_of in E. split; [auto|]. by intros [?| ->].
  - rewrite elem_of_app, list_elem_of_singleton. done.
Qed.

Lemma py_set_add_not_nil s x : py_set_add s x <> [].
Proof.
  unfold py_set_add. destruct (py_in x s) eqn:E.
  - apply py_in_elem_of in E. intros ->. by apply not_elem_of_nil in E.
  - by destruct s.
Qed.

Section Whitelist.

Variable pd : PandasDates.
Variable possible_values : list value.

Lemma map_cells_validity col vs (st : St (gmap string (list value))) :
  map_cells (_check_data_inputs possible_values col) vs st
  = (mkSt (collect_cells possible_values col vs (issues st)) (frame st),
     Val ((fun _ => VNone) <$> vs)).
Proof.
  revert st. induction vs as [|v vs IH]; intros [m df]; cbn [map_cells]; [done|].
  unfold bind at 1, _check_data_inputs at 1.
  destruct (py_in v possible_values) eqn:E; cbn;
    unfold bind at 1; rewrite IH; cbn; unfold collect_cells; cbn; by rewrite E.
Qed.

Lemma for_each_validity cols (st : St (gmap string (list value))) :
  Forall (has_column (frame st)) cols ->
  for_each cols (fun col =>
    do s <- getitem col;
    Series_apply (_check_data_inputs possible_values col) s ;; ret tt) st
  = (mkSt (collect_columns possible_values (frame st) cols (issues st)) (frame st),
     Val tt).
Proof.
  revert st. induction cols as [|c cols IH]; intros [m df] Hcols; cbn [for_each]; [done|].
  inversion Hcols as [|? ? Hc Hrest]; subst.
  unfold bind at 1. unfold bind at 1. rewrite getitem_column by done.
  unfold Series_apply, bind at 1. unfold bind at 1.
  rewrite map_cells_validity. cbn.
  rewrite IH by done. done.
Qed.

Lemma elem_of_offending v vs :
  v ∈ offending possible_values vs <-> v ∈ vs /\ py_in v possible_values = false.
Proof. unfold offending. rewrite list_elem_of_filter. tauto. Qed.

(** The entry of a column after its cells: it exists if it existed or a cell
    offends, and it holds what it held and the offending cells. *)
Lemma collect_cells_spec col vs (m : gmap string (list value)) c :
  (is_Some (collect_cells possible_values col vs m !! c)
   <-> is_Some (m !! c) \/ (c = col /\ exists v, v ∈ offending possible_values vs)) /\
  (forall v, v ∈ default [] (collect_cells possible_values col vs m !! c)
     <-> v ∈ default [] (m !! c) \/ (c = col /\ v ∈ offending possible_values vs)).
Proof.
  unfold collect_cells. revert m.
  induction vs as [|v vs IH]; intros m; cbn [foldl].
  - split; [|intros w]; (split; [auto|]);
      intros [?|[_ H]]; try done.
    + destruct H as [w H]. by apply elem_of_offending in H as [H%not_elem_of_nil _].
    + by apply elem_of_offending in H as [H%not_elem_of_nil _].
  - destruct (IH (if negb (py_in v possible_values)
                  then <[col := py_set_add (default [] (m !! col)) v]> m else m))
      as [IH1 IH2]. clear IH.
    destruct (py_in v possible_values) eqn:E; cbn [negb] in *.
    + split; [rewrite IH1|intros w; rewrite IH2];
        setoid_rewrite elem_of_offending; setoid_rewrite elem_of_offending in IH1;
        setoid_rewrite elem_of_cons; naive_solver congruence.
    + destruct (decide (col = c)) as [Heq|Hne]; [subst c|].
      * split.
        -- rewrite IH1, lookup_insert_eq.
           setoid_rewrite elem_of_offending. setoid_rewrite elem_of_cons.
           split; [|by eauto]. intros _. right. split; [done|]. exists v. eauto.
        -- intros w. rewrite IH2, lookup_insert_eq. cbn [from_option id].
           rewrite elem_of_py_set_add.
           rewrite !elem_of_offending, elem_of_cons. naive_solver.
      * split; [rewrite IH1|intros w; rewrite IH2];
          rewrite lookup_insert_ne by done; naive_solver.
Qed.

Lemma collect_columns_spec df cols (m : gmap string (list value)) c :
  (is_Some (collect_columns possible_values df cols m !! c)
   <-> is_Some (m !! c) \/
       (c ∈ cols /\ exists v, v ∈ offending possible_values (values (column df c)))) /\
  (forall v, v ∈ default [] (collect_columns possible_values df cols m !! c)
     <-> v ∈ default [] (m !! c) \/
         (c ∈ cols /\ v ∈ offending possible_values (values (column df c)))).
Proof.
  unfold collect_columns. revert m.
  induction cols as [|col cols IH]; intros m; cbn [foldl].
  - split; [|intros w]; (split; [auto|]); intros [?|[H _]]; try done;
      by apply not_elem_of_nil in H.
  - destruct (IH (collect_cells possible_values col (values (column df col)) m))
      as [IH1 IH2]. clear IH.
    destruct (collect_cells_spec col (values (column df col)) m c) as [C1 C2].
    split; [rewrite IH1, C1|intros w; rewrite IH2, C2];
      setoid_rewrite elem_of_cons; naive_solver.
Qed.

(** X4: on a frame that has the target columns, the whitelist check adds to
    the set the object holds for a target column the cells of the column
    that are not [in] the possible values (an entry appears for a column
    once a cell of it offends), and raises [ValidDataException] with the
    whole mapping unless it is empty; the frame is unchanged. *)
Theorem CheckDataValidity_collects_offending_values cols found df :
  Forall (has_column df) cols ->
  exists found' : gmap string (list value),
    (forall col, is_Some (found' !! col)
       <-> is_Some (found !! col) \/
           (col ∈ cols /\ exists v, v ∈ values (column df col) /\
                                    py_in v possible_values = false)) /\
    (forall col v, v ∈ default [] (found' !! col)
       <-> v ∈ default [] (found !! col) \/
           (col ∈ cols /\ v ∈ values (column df col) /\
            py_in v possible_values = false)) /\
    apply pd (CheckDataValidity cols possible_values found) df
    = mkEffect (CheckDataValidity cols possible_values found') df
        (if decide (found' = ∅) then Val tt
         else Exc (ValidDataException "Incorrect values found" (PDictSet found'))).
Proof.
  intros Hcols.
  exists (collect_columns possible_values df cols found).
  split; [|split].
  - intros col. rewrite (proj1 (collect_columns_spec df cols found col)).
    by setoid_rewrite elem_of_offending.
  - intros col v. rewrite (proj2 (collect_columns_spec df cols found col)).
    by rewrite elem_of_offending.
  - cbn [apply]. unfold run_method, CheckDataValidity_apply, bind at 1.
    rewrite for_each_validity by done. unfold bind, get_issues. cbn.
    destruct (decide (collect_columns possible_values df cols found = ∅)) as [E|E].
    + rewrite bool_decide_eq_false_2; [done|]. by intros ?.
    + by rewrite bool_decide_eq_true_2.
Qed.

End Whitelist.

Lemma CheckDataValidity_collects_offending_values_witness :
  let df := mkDataFrame 4 [("colour", text_column ["red"; "green"; "blue"; "green"])] in
  exists found' : gmap string (list value),
    (forall v, v ∈ default [] (found' !! "colour") <-> v = VStr "green") /\
    outcome (apply iso_dates
               (CheckDataValidity_init ["colour"] [VStr "red"; VStr "blue"]) df)
    = Exc (ValidDataException "Incorrect values found" (PDictSet found')).
Proof.
  intros df.
  destruct (CheckDataValidity_collects_offending_values iso_dates
              [VStr "red"; VStr "blue"] ["colour"] ∅ df)
    as (found' & Hsome & Hlook & Happ).
  - repeat constructor; by eexists.
  - exists found'. split.
    + intros v. rewrite Hlook, lookup_empty. cbn [default]. split.
      * intros [H%not_elem_of_nil|(_ & Hv & Hp)]; [done|].
        vm_compute in Hv.
        repeat (apply elem_of_cons in Hv as [->|Hv]; [by vm_compute in Hp|]).
        by apply not_elem_of_nil in Hv.
      * intros ->. right. split; [apply list_elem_of_here|].
        split; [|by vm_compute]. apply (bool_decide_unpack _). by vm_compute.
    + unfold CheckDataValidity_init. rewrite Happ. cbn [outcome].
      destruct (decide (found' = ∅)) as [E|]; [|done].
      assert (is_Some (found' !! "colour")) as [l Hl].
      { apply Hsome. right. split; [apply list_elem_of_here|].
        exists (VStr "green"). split; [|by vm_compute].
        apply (bool_decide_unpack _). by vm_compute. }
      rewrite E, lookup_empty in Hl. discriminate.
Defined.

(** ** The forbidden-value check on an object that holds findings *)

(** X5: on a frame that has the target columns, the forbidden-value check
    overwrites, for every target column with a match, what the object had
    recorded for the column with the last match, keeps the other entries of
    earlier calls, and raises [ValidDataException] with the whole mapping
    unless it is empty. *)
Theorem CheckGibberrish_keeps_earlier_findings pd gibberish_list cols found df :
  Forall (has_column df) cols ->
  exists found' : gmap string value,
    (forall col, found' !! col =
       if decide (col ∈ cols)
       then match last_match gibberish_list (values (column df col)) with
            | Some v => Some v
            | None => found !! col
            end
       else found !! col) /\
    apply pd (CheckGibberrish cols gibberish_list found) df
    = mkEffect (CheckGibberrish cols gibberish_list found') df
        (if decide (found' = ∅) then Val tt
         else Exc (ValidDataException "Gibberish inputs found" (PDict found'))).
Proof.
  intros Hcols. exists (record_columns gibberish_list df cols found).
  split; [intros; apply record_columns_lookup|].
  cbn [apply]. unfold run_method.
  rewrite CheckGibberrish_apply_eval by done. cbn.
  destruct (decide (record_columns gibberish_list df cols found = ∅)) as [E|E].
  - rewrite bool_decide_eq_false_2; [done|]. by intros ?.
  - by rewrite bool_decide_eq_true_2.
Qed.

Lemma CheckGibberrish_keeps_earlier_findings_witness :
  let df := mkDataFrame 1 [("a", text_column ["ok"]); ("b", text_column ["??"])] in
  exists found' : gmap string value,
    found' !! "a" = Some (VStr "N/A") /\ found' !! "b" = Some (VStr "??") /\
    outcome (apply iso_dates
               (CheckGibberrish ["a"; "b"] [VStr "??"; VStr "N/A"] {[ "a" := VStr "N/A" ]}) df)
    = Exc (ValidDataException "Gibberish inputs found" (PDict found')).
Proof.
  intros df.
  destruct (CheckGibberrish_keeps_earlier_findings iso_dates [VStr "??"; VStr "N/A"]
              ["a"; "b"] {[ "a" := VStr "N/A" ]} df)
    as (found' & Hlook & Happ).
  - repeat constructor; by eexists.
  - exists found'.
    assert (found' !! "a" = Some (VStr "N/A")) as Ha by (rewrite Hlook; by vm_compute).
    split; [done|]. split; [rewrite Hlook; by vm_compute|].
    rewrite Happ. cbn [outcome].
    destruct (decide (found' = ∅)) as [E|]; [|done].
    rewrite E, lookup_empty in Ha. discriminate.
Defined.

(** NaN in the lists: a NaN cell of a [float64] column is a new object each
    time it is read, so it is [in] no list.  The whitelist check reports it
    although the possible values hold a NaN, and the forbidden-value check
    does not find it although the forbidden list holds one; a cell of an
    [object] column that is the very object of the list is found. *)
Example nan_cell_is_in_no_list :
  let nan := VNaN (Some 0%nat) in
  let df := mkDataFrame 2 [("k", mkSeries float64 [VInt 1; VNaN None])] in
  let held := mkDataFrame 2 [("k", mkSeries object_ [VInt 1; nan])] in
  outcome (apply iso_dates (CheckDataValidity_init ["k"] [VInt 1; nan]) df)
  = Exc (ValidDataException "Incorrect values found" (PDictSet {[ "k" := [VNaN None] ]})) /\
  outcome (apply iso_dates (CheckDataValidity_init ["k"] [VInt 1; nan]) held) = Val tt /\
  outcome (apply iso_dates (CheckGibberrish_init ["k"] [nan]) df) = Val tt /\
  outcome (apply iso_dates (CheckGibberrish_init ["k"] [nan]) held)
  = Exc (ValidDataException "Gibberish inputs found" (PDict {[ "k" := nan ]})).
Proof. by vm_compute. Qed.

(** ** The range check *)

Lemma foldl_min_lt lo zs a :
  foldl Z.min a zs < lo <-> a < lo \/ Exists (fun z => z < lo) zs.
Proof.
  revert a. induction zs as [|z zs IH]; intros a; cbn [foldl].
  - rewrite Exists_nil. tauto.
  - rewrite IH, Exists_cons, Z.min_lt_iff. tauto.
Qed.

Lemma foldl_max_gt hi zs a :
  hi < foldl Z.max a zs <-> hi < a \/ Exists (fun z => hi < z) zs.
Proof.
  revert a. induction zs as [|z zs IH]; intros a; cbn [foldl].
  - rewrite Exists_nil. tauto.
  - rewrite IH, Exists_cons, Z.max_lt_iff. tauto.
Qed.

Lemma nan_lt_min lo zs :
  nan_lt (reduce Z.min zs) lo = true <-> Exists (fun z => z < lo) zs.
Proof.
  destruct zs as [|z zs]; cbn [reduce nan_lt].
  - rewrite Exists_nil. split; [discriminate|tauto].
  - rewrite Z.ltb_lt, foldl_min_lt, Exists_cons. tauto.
Qed.

Lemma nan_gt_max hi zs :
  nan_gt (reduce Z.max zs) hi = true <-> Exists (fun z => hi < z) zs.
Proof.
  destruct zs as [|z zs]; cbn [reduce nan_gt].
  - rewrite Exists_nil. split; [discriminate|tauto].
  - rewrite Z.gtb_gt, Z.gt_lt_iff, foldl_max_gt, Exists_cons. tauto.
Qed.

Lemma Exists_numbers (P : Z -> Prop) vs :
  Exists P (numbers vs) <-> Exists (fun v => match v with VInt z => P z | _ => False end) vs.
Proof.
  unfold numbers. induction vs as [|v vs IH]; cbn [omap list_omap].
  - by rewrite !Exists_nil.
  - destruct v; rewrite ?Exists_cons, IH; tauto.
Qed.

Lemma outside_flag lo hi vs :
  nan_lt (reduce Z.min (numbers vs)) lo || nan_gt (reduce Z.max (numbers vs)) hi = true
  <-> Exists (outside lo hi) vs.
Proof.
  rewrite orb_true_iff, nan_lt_min, nan_gt_max, !Exists_numbers.
  rewrite !Exists_exists. split.
  - intros [(v & Hv & Hz)|(v & Hv & Hz)]; exists v; destruct v; simpl; tauto.
  - intros (v & Hv & Hz). destruct v; simpl in Hz; [|done..].
    destruct Hz; [left|right]; exists (VInt z); tauto.
Qed.

Lemma no_text_existsb vs :
  (forall s, VStr s ∉ vs) -> existsb is_str vs = false.
Proof.
  intros Hno. induction vs as [|v vs IH]; [done|]. cbn [existsb].
  rewrite IH by (intros s Hs; apply (Hno s); by apply list_elem_of_further).
  destruct v; try done. exfalso. apply (Hno s), list_elem_of_here.
Qed.

Section Range.

Variable pd : PandasDates.
Variables range_start range_end : Z.

Lemma range_column_eval col (st : St (list string)) :
  has_column (frame st) col ->
  (forall s, VStr s ∉ values (column (frame st) col)) ->
  (do s <- getitem col;
   do lo <- Series_min s;
   do outside <- (if nan_lt lo range_start then ret true
                  else do s2 <- getitem col;
                       do hi <- Series_max s2;
                       ret (nan_gt hi range_end));
   if outside : bool then modify_issues (fun found => found ++ [col]) else ret tt) st
  = (mkSt (if decide (Exists (outside range_start range_end)
                        (values (column (frame st) col)))
           then issues st ++ [col] else issues st) (frame st), Val tt).
Proof.
  intros Hcol Hno. destruct st as [found df]. cbn [frame issues] in *.
  pose proof (outside_flag range_start range_end (values (column df col))) as Hflag.
  unfold bind, Series_min, Series_max.
  rewrite getitem_column by done. cbn [frame].
  rewrite no_text_existsb by done. unfold ret at 1.
  destruct (nan_lt _ range_start) eqn:Elo.
  - unfold ret at 1, modify_issues. cbn.
    rewrite decide_True; [done|]. by apply Hflag.
  - rewrite getitem_column by done. cbn [frame].
    rewrite no_text_existsb by done. unfold ret at 1 2.
    destruct (nan_gt _ range_end) eqn:Ehi; unfold modify_issues, ret; cbn.
    + rewrite decide_True; [done|]. by apply Hflag.
    + rewrite decide_False; [done|]. intros H. apply Hflag in H. discriminate.
Qed.

Lemma range_loop_eval cols (st : St (list string)) :
  Forall (has_column (frame st)) cols ->
  Forall (fun col => forall s, VStr s ∉ values (column (frame st) col)) cols ->
  for_each cols (fun col =>
    do s <- getitem col;
    do lo <- Series_min s;
    do outside <- (if nan_lt lo range_start then ret true
                   else do s2 <- getitem col;
                        do hi <- Series_max s2;
                        ret (nan_gt hi range_end));
    if outside : bool then modify_issues (fun found => found ++ [col]) else ret tt) st
  = (mkSt (issues st ++ out_of_range_columns range_start range_end cols (frame st))
          (frame st), Val tt).
Proof.
  unfold out_of_range_columns. revert st.
  induction cols as [|c cols IH]; intros [found df] Hcols Hno; cbn [for_each].
  - unfold ret. cbn [frame issues]. by rewrite filter_nil, app_nil_r.
  - inversion Hcols; inversion Hno; subst. unfold bind at 1.
    rewrite range_column_eval by done. cbn [frame issues].
    rewrite IH by done. cbn [frame issues]. rewrite filter_cons.
    destruct (decide (Exists _ _)); [|done]. by rewrite <- app_assoc.
Qed.

(** X6: with [range_start <= range_end], on a frame that has the target
    columns and no text in them, the range check appends to what the object
    had recorded the target columns that hold a number below [range_start]
    or above [range_end] (missing cells are skipped, a column without
    numbers is never flagged), and raises [ValidDataException] with the
    whole list unless it is empty. *)
Theorem CheckNumWithinRange_appends_out_of_range cols found df :
  range_start <= range_end ->
  Forall (has_column df) cols ->
  Forall (fun col => forall s, VStr s ∉ values (column df col)) cols ->
  apply pd (CheckNumWithinRange cols range_start range_end found) df
  = mkEffect
      (CheckNumWithinRange cols range_start range_end
         (found ++ out_of_range_columns range_start range_end cols df))
      df
      match found ++ out_of_range_columns range_start range_end cols df with
      | [] => Val tt
      | flagged =>
          Exc (ValidDataException "Inputs outside the specified ranges found" (PList flagged))
      end.
Proof.
  intros Hle Hcols Hno. cbn [apply]. unfold run_method, CheckNumWithinRange_apply.
  destruct (Z.gtb_spec range_start range_end); [lia|].
  unfold bind at 1. rewrite range_loop_eval by done.
  unfold bind, get_issues. cbn.
  by destruct (found ++ _).
Qed.

End Range.

Lemma CheckNumWithinRange_appends_out_of_range_witness :
  let df := mkDataFrame 2 [("age", int_column [30; 130]);
                           ("n", mkSeries float64 [VNaN None; VInt 7]);
                           ("e", mkSeries float64 [VNaN None; VNaN None])] in
  outcome (apply iso_dates (CheckNumWithinRange ["age"; "n"; "e"] 0 120 ["old"]) df)
  = Exc (ValidDataException "Inputs outside the specified ranges found"
           (PList ["old"; "age"])).
Proof.
  intros df.
  rewrite (CheckNumWithinRange_appends_out_of_range iso_dates 0 120 ["age"; "n"; "e"] ["old"] df).
  - by vm_compute.
  - lia.
  - repeat constructor; by eexists.
  - repeat constructor; intros s Hs; vm_compute in Hs;
      repeat (apply elem_of_cons in Hs as [Hs|Hs]; [discriminate|]);
      by apply not_elem_of_nil in Hs.
Defined.

(** ** The future-date check *)

Section FutureDates.

Variable pd : PandasDates.
Variable current_time : Timestamp.





End FutureDates.


(** [None] in a target column of the future-date check: the comparison
    with [_current_time] raises [TypeError]; NaN is read as [NaT] and passes. *)
Example none_cell_cannot_be_compared :
  let now := mkTimestamp 2020 6 1 12 0 0 0 in
  outcome (apply iso_dates (CheckFutureDates_init now ["stoptime"])
             (mkDataFrame 2 [("stoptime", mkSeries object_
                                [VStr "2014-02-01 00:05:00"; VNone])]))
  = Exc TypeError /\
  outcome (apply iso_dates (CheckFutureDates_init now ["stoptime"])
             (mkDataFrame 2 [("stoptime", mkSeries object_
                                [VStr "2014-02-01 00:05:00"; VNaN (Some 0%nat)])]))
  = Val tt.
Proof. by vm_compute. Qed.

(** ** Findings are never dropped *)

Lemma keeps_ret {F A} (P : F -> Prop) (a : A) : keeps P (@ret F A a).
Proof. by intros st. Qed.

Lemma keeps_raise {F A} (P : F -> Prop) e : keeps P (@raise F A e).
Proof. by intros st. Qed.

Lemma keeps_getitem {F} (P : F -> Prop) col : keeps P (getitem col).
Proof. intros st. unfold getitem. by destruct (assoc_lookup _ _). Qed.

Lemma keeps_modify_issues {F} (P : F -> Prop) (f : F -> F) :
  (forall x, P x -> P (f x)) -> keeps P (modify_issues f).
Proof. intros Hf st. apply Hf. Qed.

Lemma keeps_bind {F A B} (P : F -> Prop) (m : M F A) (k : A -> M F B) :
  keeps P m -> (forall a, keeps P (k a)) -> keeps P (bind m k).
Proof.
  intros Hm Hk st HP. unfold bind. specialize (Hm st HP).
  destruct (m st) as [st1 [a|e]]; [|done]. by apply Hk.
Qed.

Lemma keeps_if {F A} (P : F -> Prop) (b : bool) (m1 m2 : M F A) :
  keeps P m1 -> keeps P m2 -> keeps P (if b then m1 else m2).
Proof. by destruct b. Qed.

Lemma keeps_for_each {F A} (P : F -> Prop) (xs : list A) (body : A -> M F unit) :
  (forall x, keeps P (body x)) -> keeps P (for_each xs body).
Proof.
  intros Hb. induction xs as [|x xs IH]; cbn [for_each].
  - apply keeps_ret.
  - apply keeps_bind; auto.
Qed.

Lemma keeps_map_cells {F} (P : F -> Prop) (f : value -> M F value) vs :
  (forall v, keeps P (f v)) -> keeps P (map_cells f vs).
Proof.
  intros Hf. induction vs as [|v vs IH]; cbn [map_cells].
  - apply keeps_ret.
  - apply keeps_bind; [auto|]. intros v'.
    apply keeps_bind; [auto|]. intros. apply keeps_ret.
Qed.

Lemma keeps_Series_apply {F} (P : F -> Prop) (f : value -> M F value) s :
  (forall v, keeps P (f v)) -> keeps P (Series_apply f s).
Proof.
  intros Hf. apply keeps_bind; [by apply keeps_map_cells|].
  intros. apply keeps_ret.
Qed.

Lemma keeps_Series_min {F} (P : F -> Prop) s : keeps P (@Series_min F s).
Proof. unfold Series_min. apply keeps_if; [apply keeps_raise|apply keeps_ret]. Qed.

Lemma keeps_Series_max {F} (P : F -> Prop) s : keeps P (@Series_max F s).
Proof. unfold Series_max. apply keeps_if; [apply keeps_raise|apply keeps_ret]. Qed.

Ltac keeps_step :=
  first
    [ apply keeps_ret | apply keeps_raise | apply keeps_getitem
    | apply keeps_Series_min | apply keeps_Series_max
    | apply keeps_Series_apply; intros ?
    | apply keeps_for_each; intros ?
    | apply keeps_if
    | apply keeps_bind; [|intros ?] ].

(** The end of the four [apply] methods with an accumulator: after a loop
    that keeps the accumulator non-empty, the method raises. *)
Lemma guarded_raise {F} (P : F -> Prop) (m : M F unit) (test : F -> bool)
    (mk : F -> exn) (st : St F) :
  keeps P m -> (forall found, P found -> test found = true) -> P (issues st) ->
  let r := (m ;; do found <- get_issues;
            if test found then raise (mk found) else ret tt) st in
  (exists e, r.2 = Exc e) /\ P (issues r.1).
Proof.
  intros Hm Htest HP. cbn zeta. unfold bind, get_issues. specialize (Hm st HP).
  destruct (m st) as [st1 [[]|e]]; cbn [fst snd] in *.
  - rewrite (Htest _ Hm). unfold raise.
    cbn [fst snd issues]. split; [by eexists|done].
  - split; [by eexists|done].
Qed.

Lemma raises_only_getitem {F} (allowed : exn -> Prop) col :
  (forall c, allowed (KeyError c)) -> raises_only allowed (@getitem F col).
Proof.
  intros Hk st st' e. unfold getitem.
  destruct (assoc_lookup _ _); [done|]. intros [= _ <-]. apply Hk.
Qed.

Lemma raises_only_for_each {F A} allowed (xs : list A) (body : A -> M F unit) :
  (forall x, raises_only allowed (body x)) -> raises_only allowed (for_each xs body).
Proof.
  intros Hb. induction xs as [|x xs IH]; cbn [for_each].
  - apply raises_only_ret.
  - apply raises_only_bind; auto.
Qed.

(** When such a method raises one of the exceptions of [checks.py], the loop
    has returned and the accumulator has passed the test. *)
Lemma guarded_raise_inv {F} (m : M F unit) (test : F -> bool) (mk : F -> exn)
    (st st' : St F) e :
  raises_only (fun e => is_DataException e = false) m ->
  (m ;; do found <- get_issues;
   if test found then raise (mk found) else ret tt) st = (st', Exc e) ->
  is_DataException e = true -> test (issues st') = true.
Proof.
  intros Hm. unfold bind at 1.
  destruct (m st) as [st1 [[]|e1]] eqn:Em.
  - unfold bind, get_issues. destruct (test (issues st1)) eqn:Et; [|done].
    intros [= <- _]. done.
  - intros [= <- <-] He. apply Hm in Em. congruence.
Qed.

Lemma run_guarded {F} (P : F -> Prop) (Q : Check -> Prop) (m : M F unit)
    (test : F -> bool) (mk : F -> exn) found (store : F -> Check) df :
  keeps P m -> (forall f, P f -> test f = true) -> (forall f, P f -> Q (store f)) ->
  P found ->
  (exists e, outcome (run_method
     (m ;; do found <- get_issues;
      if test found then raise (mk found) else ret tt) found store df) = Exc e) /\
  Q (self' (run_method
     (m ;; do found <- get_issues;
      if test found then raise (mk found) else ret tt) found store df)).
Proof.
  intros Hm Htest HQ HP.
  destruct (guarded_raise P m test mk (mkSt found df) Hm Htest HP) as [[e He] HP'].
  unfold run_method. cbn zeta in He, HP'.
  destruct (bind m _ _) as [st r]. cbn in *. subst r. eauto.
Qed.

Lemma run_guarded_inv {F} (Q : Check -> Prop) (m : M F unit)
    (test : F -> bool) (mk : F -> exn) found (store : F -> Check) df e :
  raises_only (fun e => is_DataException e = false) m ->
  (forall f, test f = true -> Q (store f)) ->
  outcome (run_method
     (m ;; do found <- get_issues;
      if test found then raise (mk found) else ret tt) found store df) = Exc e ->
  is_DataException e = true ->
  Q (self' (run_method
     (m ;; do found <- get_issues;
      if test found then raise (mk found) else ret tt) found store df)).
Proof.
  intros Hm HQ. unfold run_method.
  destruct (bind m _ _) as [st r] eqn:Erun. cbn. intros -> He.
  apply HQ. eapply guarded_raise_inv; eauto.
Qed.

Ltac pandas_step :=
  first
    [ apply raises_only_ret | apply raises_only_modify_issues
    | apply raises_only_getitem; done
    | apply raises_only_raise; done
    | apply raises_only_Series_apply; intros ?
    | apply raises_only_for_each; intros ?
    | apply raises_only_if
    | apply raises_only_bind; [|intros ?] ].

Section Persistence.

Variable pd : PandasDates.

(** An instance that holds findings never returns from [apply], on any
    frame, and still holds findings afterwards. *)
Lemma holds_findings_raises c df :
  holds_findings c = true ->
  (exists e, outcome (apply pd c df) = Exc e) /\
  holds_findings (self' (apply pd c df)) = true.
Proof.
  intros Hc. destruct c; try discriminate Hc; cbn [apply holds_findings] in Hc |- *.
  - (* CheckGibberrish *)
    apply bool_decide_eq_true in Hc. unfold CheckGibberrish_apply.
    apply (run_guarded (fun f : gmap string value => f ≠ ∅)
             (fun c => holds_findings c = true)); [| | |done].
    + repeat keeps_step. unfold _check_gibberish. repeat keeps_step.
      apply keeps_modify_issues. intros. apply insert_non_empty.
    + intros. by apply bool_decide_eq_true.
    + intros. by apply bool_decide_eq_true.
  - (* CheckDataValidity *)
    apply bool_decide_eq_true in Hc. unfold CheckDataValidity_apply.
    apply (run_guarded (fun f : gmap string (list value) => f ≠ ∅)
             (fun c => holds_findings c = true)); [| | |done].
    + repeat keeps_step. unfold _check_data_inputs. repeat keeps_step.
      apply keeps_modify_issues. intros. apply insert_non_empty.
    + intros. by apply bool_decide_eq_true.
    + intros. by apply bool_decide_eq_true.
  - (* CheckFutureDates *)
    apply bool_decide_eq_true in Hc. unfold CheckFutureDates_apply.
    apply (run_guarded (fun f : gset string => f ≠ ∅)
             (fun c => holds_findings c = true)); [| | |done].
    + repeat keeps_step. check_time_cases pd; repeat keeps_step;
        apply keeps_modify_issues; intros; set_solver.
    + intros. by apply bool_decide_eq_true.
    + intros. by apply bool_decide_eq_true.
  - (* CheckNumWithinRange *)
    unfold CheckNumWithinRange_apply.
    destruct (range_start >? range_end); [cbn; eauto|].
    apply (run_guarded (fun f : list string => truthy f = true)
             (fun c => holds_findings c = true)); [| | |done].
    + repeat keeps_step. apply keeps_modify_issues. by intros [|? ?].
    + done.
    + done.
Qed.

(** When [apply] of a class with an accumulator raises one of the exceptions
    of [checks.py], the instance holds findings afterwards. *)
Lemma raised_holds_findings c df e :
  keeps_accumulator c = true ->
  outcome (apply pd c df) = Exc e -> is_DataException e = true ->
  holds_findings (self' (apply pd c df)) = true.
Proof.
  intros Hc. destruct c; try discriminate Hc; cbn [apply].
  - unfold CheckGibberrish_apply.
    apply (run_guarded_inv (fun c => holds_findings c = true)); [|done].
    repeat pandas_step.
  - unfold CheckDataValidity_apply.
    apply (run_guarded_inv (fun c => holds_findings c = true)); [|done].
    repeat pandas_step.
  - unfold CheckFutureDates_apply.
    apply (run_guarded_inv (fun c => holds_findings c = true)); [|done].
    repeat pandas_step.
    check_time_cases pd; repeat pandas_step.
  - unfold CheckNumWithinRange_apply.
    destruct (range_start >? range_end).
    { unfold run_method, raise. cbn. by intros [= <-]. }
    apply (run_guarded_inv (fun c => holds_findings c = true)); [|done].
    repeat pandas_step; try (unfold Series_min; repeat pandas_step);
      try (unfold Series_max; repeat pandas_step).
Qed.

(** X8: the four classes that keep [_found_issues] on the instance never
    drop what they found: once [apply] has raised [ValidDataException],
    every later [apply] of the instance raises, on every frame, and the
    instance still holds findings after it. *)
Theorem findings_outlive_the_call c df0 msg args df :
  keeps_accumulator c = true ->
  outcome (apply pd c df0) = Exc (ValidDataException msg args) ->
  (exists e, outcome (apply pd (self' (apply pd c df0)) df) = Exc e) /\
  holds_findings (self' (apply pd (self' (apply pd c df0)) df)) = true.
Proof.
  intros Hc Hraise. apply holds_findings_raises.
  by eapply raised_holds_findings.
Qed.

End Persistence.

Lemma findings_outlive_the_call_witness :
  let c := CheckDataValidity_init ["colour"] [VStr "red"] in
  let dirty := mkDataFrame 1 [("colour", text_column ["green"])] in
  let clean := mkDataFrame 1 [("colour", text_column ["red"])] in
  outcome (apply iso_dates c clean) = Val tt /\
  exists e, outcome (apply iso_dates (self' (apply iso_dates c dirty)) clean) = Exc e.
Proof.
  intros c dirty clean. split; [by vm_compute|].
  refine (proj1 (findings_outlive_the_call iso_dates c dirty
                   "Incorrect values found"
                   (PDictSet {[ "colour" := [VStr "green"] ]}) clean _ _)).
  - reflexivity.
  - by vm_compute.
Defined.

(** ** What the normalisation does to the frame *)

Lemma same_shape_refl cols df : same_shape cols df df.
Proof. split; [done|]. apply Forall_Forall2_diag, Forall_forall. naive_solver. Qed.

Lemma same_shape_trans cols df1 df2 df3 :
  same_shape cols df1 df2 -> same_shape cols df2 df3 -> same_shape cols df1 df3.
Proof.
  intros [Hi1 H1] [Hi2 H2]. split; [congruence|].
  eapply Forall2_trans; [|exact H1|exact H2].
  intros a b c (? & ? & Hab) (? & ? & Hbc).
  split; [congruence|]. split; [congruence|].
  intros Ha. pose proof (Hab Ha) as <-. by apply Hbc.
Qed.

Lemma assoc_set_same_shape cols c s s' idx cs :
  c ∈ cols -> assoc_lookup c cs = Some s ->
  length (values s') = length (values s) ->
  same_shape cols (mkDataFrame idx cs) (mkDataFrame idx (assoc_set c s' cs)).
Proof.
  intros Hc Hs Hlen. split; [done|]. cbn [columns].
  induction cs as [|[name s0] cs IH]; [done|].
  cbn [assoc_lookup assoc_set] in *.
  destruct (decide (name = c)) as [->|Hne].
  - simplify_eq. constructor; [done|].
    apply Forall_Forall2_diag, Forall_forall. naive_solver.
  - constructor; [done|]. by apply IH.
Qed.

Lemma same_shape_lookup cols df df' c :
  same_shape cols df df' ->
  match assoc_lookup c (columns df), assoc_lookup c (columns df') with
  | Some s, Some s' => length (values s') = length (values s) /\ (c ∉ cols -> s' = s)
  | None, None => True
  | _, _ => False
  end.
Proof.
  intros [_ H]. induction H as [|[n s] [n' s'] l l' (Hn & Hlen & Hsame) H IH]; [done|].
  cbn in *. subst n'. destruct (decide (n = c)) as [->|Hne]; [|done].
  split; [done|]. intros Hc. by injection (Hsame Hc).
Qed.

Lemma same_shape_names cols df df' :
  same_shape cols df df' -> column_names df' = column_names df.
Proof.
  intros [_ H]. unfold column_names.
  induction H as [|a b l l' (Hn & _) H IH]; [done|]. cbn. by rewrite IH, Hn.
Qed.

Lemma same_shape_wf cols df df' :
  same_shape cols df df' -> wf_DataFrame df -> wf_DataFrame df'.
Proof.
  intros Hs [Hnd Hlen]. split; [by rewrite (same_shape_names _ _ _ Hs)|].
  destruct Hs as [-> H]. clear Hnd.
  induction H as [|a b l l' (_ & Hl & _) H IH]; [done|].
  inversion Hlen; subst. constructor; [congruence|auto].
Qed.

Lemma map_cells_length {F} (f : value -> M F value) vs (st st' : St F) vs' :
  map_cells f vs st = (st', Val vs') -> length vs' = length vs.
Proof.
  revert st st' vs'. induction vs as [|v vs IH]; intros st st' vs'; cbn [map_cells].
  - by intros [= _ <-].
  - unfold bind at 1. destruct (f v st) as [st1 [v1|e]]; [|done].
    unfold bind at 1. destruct (map_cells f vs st1) as [st2 [vs1|e]] eqn:E; [|done].
    unfold ret. intros [= _ <-]. cbn [length]. f_equal. eapply IH, E.
Qed.

Section NormalisationEffect.

Variable pd : PandasDates.

(** One iteration of the loop: it either raises and leaves the frame, or
    replaces the column by one with as many cells. *)
Lemma normalize_column_shape cols col (st : St unit) :
  col ∈ cols ->
  let r := (do s <- getitem col;
            do s' <- Series_apply (normalize_cell pd) s;
            setitem col s') st in
  same_shape cols (frame st) (frame r.1) /\
  (forall e, r.2 = Exc e -> frame r.1 = frame st).
Proof.
  intros Hcol. cbn zeta. unfold Series_apply, bind, getitem.
  destruct (assoc_lookup col (columns (frame st))) as [s|] eqn:Es;
    [|split; [apply same_shape_refl|done]].
  pose proof (read_only_map_cells (normalize_cell pd) (values s)
                (fun v => read_only_normalize_cell pd v) st) as Hro.
  destruct (map_cells (normalize_cell pd) (values s) st) as [st1 [vs|e]] eqn:Em;
    cbn in Hro |- *.
  - split; [|done]. rewrite Hro. destruct (frame st) as [idx cs]. cbn in *.
    eapply assoc_set_same_shape; [done|done|]. cbn.
    by eapply map_cells_length.
  - rewrite Hro. split; [apply same_shape_refl|done].
Qed.

Lemma normalize_loop_shape cols cs (st : St unit) :
  cs ⊆ cols ->
  same_shape cols (frame st) (frame (CheckTimeStamps_apply pd cs st).1).
Proof.
  unfold CheckTimeStamps_apply. revert st.
  induction cs as [|c cs IH]; intros st Hsub; cbn [for_each].
  - apply same_shape_refl.
  - unfold bind at 1.
    destruct (normalize_column_shape cols c st) as [Hshape _]; [set_solver|].
    cbn zeta in Hshape.
    destruct ((do s <- getitem c; do s' <- Series_apply (normalize_cell pd) s;
               setitem c s') st) as [st1 [[]|e]]; [|done].
    eapply same_shape_trans; [exact Hshape|]. apply IH. set_solver.
Qed.

(** X9: whether it returns or raises, the normalisation keeps the column
    labels and their order, the length of the index, the number of cells of
    every column and every column that is not a target; a well-formed frame
    stays well-formed. *)
Theorem CheckTimeStamps_keeps_shape cols df :
  let df' := data' (apply pd (CheckTimeStamps cols) df) in
  column_names df' = column_names df /\
  index_len df' = index_len df /\
  (forall c, length (values (column df' c)) = length (values (column df c))) /\
  (forall c, c ∉ cols -> assoc_lookup c (columns df') = assoc_lookup c (columns df)) /\
  (wf_DataFrame df -> wf_DataFrame df').
Proof.
  cbn zeta. cbn [apply]. unfold run_method.
  pose proof (normalize_loop_shape cols cols (mkSt tt df) (reflexivity _)) as Hs.
  destruct (CheckTimeStamps_apply pd cols (mkSt tt df)) as [[[] df'] r].
  cbn in Hs |- *.
  split; [by eapply same_shape_names|]. split; [apply Hs|].
  split; [|split].
  - intros c. pose proof (same_shape_lookup _ _ _ c Hs) as Hl. unfold column.
    destruct (assoc_lookup c (columns df)), (assoc_lookup c (columns df'));
      naive_solver.
  - intros c Hc. pose proof (same_shape_lookup _ _ _ c Hs) as Hl.
    destruct (assoc_lookup c (columns df)), (assoc_lookup c (columns df'));
      naive_solver.
  - by apply (same_shape_wf cols).
Qed.

Lemma for_each_app {F A} (xs ys : list A) (body : A -> M F unit) (st : St F) :
  for_each (xs ++ ys) body st
  = match for_each xs body st with
    | (st1, Val _) => for_each ys body st1
    | (st1, Exc e) => (st1, Exc e)
    end.
Proof.
  revert st. induction xs as [|x xs IH]; intros st; cbn [for_each app]; [done|].
  unfold bind at 1 2. destruct (body x st) as [st1 [[]|e]]; [apply IH|done].
Qed.

(** X10: the normalisation is not all-or-nothing.  When it fails at a target
    column, the target columns before it have been rewritten and stay so:
    the frame it leaves is the frame a normalisation of those columns alone
    leaves, and the columns after the failing one are not visited. *)
Theorem CheckTimeStamps_fails_midway pre c post df e :
  outcome (apply pd (CheckTimeStamps pre) df) = Val tt ->
  outcome (apply pd (CheckTimeStamps [c]) (data' (apply pd (CheckTimeStamps pre) df)))
  = Exc e ->
  apply pd (CheckTimeStamps (pre ++ c :: post)) df
  = mkEffect (CheckTimeStamps (pre ++ c :: post))
      (data' (apply pd (CheckTimeStamps pre) df)) (Exc e).
Proof.
  cbn [apply]. unfold run_method, CheckTimeStamps_apply.
  set (body := fun column : string =>
         do s <- getitem column;
         do s' <- Series_apply (normalize_cell pd) s;
         @setitem unit column s').
  rewrite for_each_app.
  destruct (for_each pre body (mkSt tt df)) as [[[] df1] r]. cbn [outcome data' frame].
  intros ->. cbn [for_each]. unfold bind.
  assert (Hframe : forall e', (body c (mkSt tt df1)).2 = Exc e' ->
                     frame (body c (mkSt tt df1)).1 = df1).
  { destruct (normalize_column_shape [c] c (mkSt tt df1)) as [_ Hframe];
      [apply list_elem_of_here|]. exact Hframe. }
  revert Hframe.
  destruct (body c (mkSt tt df1)) as [[[] df2] [[]|e']]; cbn; intros Hframe.
  - unfold ret. done.
  - intros [= <-]. by rewrite (Hframe e').
Qed.




End NormalisationEffect.

Lemma CheckTimeStamps_keeps_shape_witness :
  let df := mkDataFrame 2 [("starttime", text_column ["2014-02-01"; "soon"]);
                           ("bikeid", int_column [7; 8])] in
  wf_DataFrame (data' (apply date_reader (CheckTimeStamps ["starttime"]) df)).
Proof.
  intros df.
  refine (proj2 (proj2 (proj2 (proj2
    (CheckTimeStamps_keeps_shape date_reader ["starttime"] df)))) _).
  closed_frame.
Defined.

(** The start times are rewritten, a stop time cannot be read: the call
    raises and the start times stay rewritten. *)
Lemma CheckTimeStamps_fails_midway_witness :
  let df := mkDataFrame 1 [("starttime", text_column ["2014-02-01"]);
                           ("stoptime", text_column ["later"])] in
  apply date_reader (CheckTimeStamps ["starttime"; "stoptime"]) df
  = mkEffect (CheckTimeStamps ["starttime"; "stoptime"])
      (mkDataFrame 1 [("starttime", text_column ["2014-02-01 00:00:00"]);
                      ("stoptime", text_column ["later"])])
      (Exc (ParserError (VStr "later"))).
Proof.
  intros df.
  refine (eq_trans
    (CheckTimeStamps_fails_midway date_reader ["starttime"] "stoptime" [] df
       (ParserError (VStr "later")) _ _) _); by vm_compute.
Defined.


(** ** Attaching and removing checks *)

Lemma list_remove_snoc_new x l : x ∉ l -> list_remove x (l ++ [x]) = Some l.
Proof.
  induction l as [|y l IH]; intros Hx; cbn [app list_remove].
  - by rewrite decide_True.
  - apply not_elem_of_cons in Hx as [Hne Hx].
    rewrite decide_False by done. by rewrite IH.
Qed.

Lemma list_remove_snoc x l :
  exists l', list_remove x (l ++ [x]) = Some l' /\ length l' = length l.
Proof.
  induction l as [|y l (l' & IH & Hlen)]; cbn [app list_remove].
  - exists []. by rewrite decide_True.
  - destruct (decide (x = y)) as [->|Hne].
    + exists (l ++ [y]). split; [done|]. rewrite length_app. cbn. lia.
    + rewrite IH. exists (y :: l'). cbn. by rewrite Hlen.
Qed.

Lemma list_remove_perm x l l' :
  list_remove x l = Some l' -> l ≡ₚ x :: l' /\ l' `sublist_of` l.
Proof.
  revert l'. induction l as [|y l IH]; intros l'; cbn [list_remove]; [done|].
  destruct (decide (x = y)) as [->|Hne].
  - intros [= <-]. split; [done|]. by apply sublist_cons.
  - destruct (list_remove x l) as [l0|]; [|done]. cbn. intros [= <-].
    destruct (IH l0 eq_refl) as [Hp Hs]. split.
    + rewrite Hp. apply Permutation_swap.
    + by apply sublist_skip.
Qed.

(** X12: removing a check right after attaching it never raises and gives a
    list of the old length; when the object was not attached before, it
    gives the data source back as it was. *)
Theorem remove_check_after_add_check ds check :
  (exists ds', remove_check (add_check ds check) check = (ds', Val tt) /\
     length (_checks ds') = length (_checks ds)) /\
  (check ∉ _checks ds -> remove_check (add_check ds check) check = (ds, Val tt)).
Proof.
  unfold remove_check, add_check. cbn [_checks data_name data_source]. split.
  - destruct (list_remove_snoc check (_checks ds)) as (l' & -> & Hlen). eauto.
  - intros Hnew. rewrite list_remove_snoc_new by done. by destruct ds.
Qed.

(** X13: when [remove_check] returns, it has taken exactly one reference to
    the object out of the list: the old list is a rearrangement of the
    object and the new list, the new list keeps the order of the old one,
    and the frame and the name are untouched.  An object attached twice is
    still attached after one removal. *)
Theorem remove_check_takes_one ds check ds' :
  remove_check ds check = (ds', Val tt) ->
  _checks ds ≡ₚ check :: _checks ds' /\
  _checks ds' `sublist_of` _checks ds /\
  data_source ds' = data_source ds /\ data_name ds' = data_name ds.
Proof.
  unfold remove_check.
  destruct (list_remove check (_checks ds)) as [l|] eqn:E; [|done].
  intros [= <-]. cbn. destruct (list_remove_perm _ _ _ E). done.
Qed.

Lemma remove_check_after_add_check_witness :
  let ds := mkDataSource "bikes" (mkDataFrame 0 []) [4; 7]%nat in
  remove_check (add_check ds 9%nat) 9%nat = (ds, Val tt).
Proof.
  intros ds. apply (proj2 (remove_check_after_add_check ds 9%nat)).
  apply (bool_decide_unpack _). by vm_compute.
Defined.

Lemma remove_check_takes_one_witness :
  let ds := mkDataSource "bikes" (mkDataFrame 0 []) [4; 7; 4]%nat in
  [4; 7; 4]%nat ≡ₚ 4%nat :: [7; 4]%nat /\ 4%nat ∈ _checks (remove_check ds 4%nat).1.
Proof.
  intros ds. split.
  - exact (proj1 (remove_check_takes_one ds 4%nat
                    (mkDataSource "bikes" (mkDataFrame 0 []) [7; 4]%nat) eq_refl)).
  - apply (bool_decide_unpack _). by vm_compute.
Defined.

(** ** More about the runner *)

Section RunnerComposition.

Variable pd : PandasDates.

Lemma apply_forget_issues c df :
  forget_issues (self' (apply pd c df)) = forget_issues c.
Proof.
  destruct c; cbn [apply]; unfold run_method;
    match goal with |- context [?m (mkSt ?f df)] => destruct (m (mkSt f df)) end;
    done.
Qed.

Lemma is_normalization_forget c : is_normalization (forget_issues c) = is_normalization c.
Proof. by destruct c. Qed.

Lemma apply_read_only c df :
  is_normalization c = false -> data' (apply pd c df) = df.
Proof.
  intros Hc. destruct c; try discriminate Hc; apply run_method_read_only.
  - apply read_only_raise.
  - apply read_only_CheckBlank.
  - apply read_only_CheckGibberrish.
  - apply read_only_CheckDuplicate.
  - apply read_only_CheckDataValidity.
  - apply read_only_CheckFutureDates.
  - apply read_only_CheckNumWithinRange.
  - apply read_only_CheckDataConsistency.
  - apply read_only_CheckDataRelevancy.
  - apply read_only_CheckIsNaN.
Qed.

Lemma run_checks_read_only refs (h : ObjStore) df log run :
  (forall r c, r ∈ refs -> h !! r = Some c -> is_normalization c = false) ->
  run_checks pd refs h df log = Some run -> frame' run = df.
Proof.
  revert h df log. induction refs as [|r refs IH]; intros h df log Hcls; cbn [run_checks].
  - by intros [= <-].
  - destruct (h !! r) as [c|] eqn:Hc; [|done]. cbn.
    assert (is_normalization c = false) as Hn
      by (eapply Hcls; [apply list_elem_of_here|done]).
    rewrite (apply_read_only c df Hn).
    destruct (outcome (apply pd c df)); [|by intros [= <-]].
    apply IH. intros r' c' Hr'. rewrite lookup_insert.
    destruct (decide (r = r')) as [->|Hne].
    + intros [= <-].
      by rewrite <- is_normalization_forget, apply_forget_issues,
                    is_normalization_forget.
    + apply Hcls. by apply list_elem_of_further.
Qed.

(** X14: a data source to which no timestamp normalisation is attached
    comes out of [check_data] with the frame it went in with, whether the
    run returns or raises. *)
Theorem check_data_read_only (h : ObjStore) ds run :
  (forall r c, r ∈ _checks ds -> h !! r = Some c -> is_normalization c = false) ->
  check_data pd h ds = Some run -> frame' run = data_source ds.
Proof. unfold check_data. apply run_checks_read_only. Qed.

Lemma run_checks_app l1 l2 (h : ObjStore) df log :
  run_checks pd (l1 ++ l2) h df log
  = match run_checks pd l1 h df log with
    | Some run1 =>
        match result run1 with
        | Val _ => run_checks pd l2 (store' run1) (frame' run1) (invoked run1)
        | Exc _ => Some run1
        end
    | None => None
    end.
Proof.
  revert h df log. induction l1 as [|r l1 IH]; intros h df log; cbn [app run_checks].
  - done.
  - destruct (h !! r) as [c|]; [|done]. cbn.
    destruct (outcome (apply pd c df)); [apply IH|done].
Qed.

(** X15: attaching one more check extends the run at its end: the run of
    the longer list is the run of the old list, followed, when that one
    returned, by one call of [apply] of the new check on the frame and the
    objects the old run left; when the old run raised, the new check is not
    reached. *)
Theorem check_data_add_check (h : ObjStore) ds check :
  check_data pd h (add_check ds check)
  = match check_data pd h ds with
    | None => None
    | Some run =>
        match result run with
        | Exc _ => Some run
        | Val _ =>
            c ← store' run !! check;
            Some (mkRun (<[check := self' (apply pd c (frame' run))]> (store' run))
                        (data' (apply pd c (frame' run)))
                        (invoked run ++ [check])
                        (outcome (apply pd c (frame' run))))
        end
    end.
Proof.
  unfold check_data, add_check. cbn [_checks data_source].
  rewrite run_checks_app.
  destruct (run_checks pd (_checks ds) h (data_source ds) []) as [run|]; [|done].
  destruct (result run); [|done]. cbn [run_checks].
  destruct (store' run !! check) as [c|]; [|done]. cbn.
  by destruct (outcome (apply pd c (frame' run))) as [[]|e].
Qed.

Lemma run_checks_forget refs (h : ObjStore) df log run r :
  run_checks pd refs h df log = Some run ->
  forget_issues <$> store' run !! r = forget_issues <$> h !! r.
Proof.
  revert h df log. induction refs as [|r0 refs IH]; intros h df log; cbn [run_checks].
  - by intros [= <-].
  - destruct (h !! r0) as [c|] eqn:Hc; [|done]. cbn.
    assert (forget_issues <$> <[r0 := self' (apply pd c df)]> h !! r
            = forget_issues <$> h !! r) as Hstep.
    { rewrite lookup_insert. destruct (decide (r0 = r)) as [->|]; [|done].
      rewrite Hc. cbn. by rewrite apply_forget_issues. }
    destruct (outcome (apply pd c df)).
    + intros Hrun. by rewrite (IH _ _ _ Hrun).
    + by intros [= <-].
Qed.

(** X16: a run of [check_data] creates and deletes no check object and
    changes nothing of an object but what it has accumulated: class, target
    columns and parameters of every object are as before the run. *)
Theorem check_data_keeps_configuration (h : ObjStore) ds run r :
  check_data pd h ds = Some run ->
  forget_issues <$> store' run !! r = forget_issues <$> h !! r.
Proof. unfold check_data. apply run_checks_forget. Qed.

End RunnerComposition.

Lemma check_data_read_only_witness :
  let h : ObjStore := {[ 1%nat := CheckIsNaN ["a"]; 2%nat := CheckDuplicate ["a"] ]} in
  let df := mkDataFrame 2 [("a", int_column [7; 7])] in
  let ds := mkDataSource "bikes" df [1; 2]%nat in
  exists run, check_data iso_dates h ds = Some run /\ frame' run = df.
Proof.
  intros h df ds. eexists. split; [by vm_compute|].
  apply (check_data_read_only iso_dates h ds).
  - intros r c Hr Hc. vm_compute in Hr.
    apply elem_of_cons in Hr as [->|Hr]; [by vm_compute in Hc; simplify_eq|].
    apply list_elem_of_singleton in Hr as ->. by vm_compute in Hc; simplify_eq.
  - by vm_compute.
Defined.

Lemma check_data_keeps_configuration_witness :
  let h : ObjStore := {[ 1%nat := CheckGibberrish_init ["a"] [VStr "??"] ]} in
  let ds := mkDataSource "bikes" (mkDataFrame 1 [("a", text_column ["??"])]) [1%nat] in
  exists run, check_data iso_dates h ds = Some run /\
    store' run !! 1%nat <> h !! 1%nat /\
    forget_issues <$> store' run !! 1%nat = forget_issues <$> h !! 1%nat.
Proof.
  intros h ds. eexists. split; [by vm_compute|]. split; [by vm_compute|].
  apply (check_data_keeps_configuration iso_dates h ds). by vm_compute.
Defined.

(** ** The canonical text *)

(** X17: the canonical text [strftime] writes has nineteen characters, and
    it tells timestamps apart down to the second: two calendar-valid
    timestamps get the same text exactly when they agree in everything but
    the sub-second part. *)
Theorem strftime_tells_seconds_apart t1 t2 :
  valid_ts t1 = true -> valid_ts t2 = true ->
  String.length (strftime t1) = 19%nat /\
  (strftime t1 = strftime t2 <-> whole_second t1 = whole_second t2).
Proof.
  intros H1 H2. split; [reflexivity|]. split.
  - intros E. pose proof (parse_iso_strftime t1 H1) as P1.
    rewrite E, (parse_iso_strftime t2 H2) in P1. congruence.
  - intros E. transitivity (strftime (whole_second t1)).
    + symmetry. apply strftime_whole_second.
    + rewrite E. apply strftime_whole_second.
Qed.

Lemma strftime_tells_seconds_apart_witness :
  strftime (mkTimestamp 2014 2 1 0 5 9 120) = strftime (mkTimestamp 2014 2 1 0 5 9 7).
Proof.
  apply (proj2 (strftime_tells_seconds_apart
                  (mkTimestamp 2014 2 1 0 5 9 120) (mkTimestamp 2014 2 1 0 5 9 7)
                  eq_refl eq_refl)).
  reflexivity.
Defined.

(** ** Checks built with their default arguments *)

Lemma offending_nil vs : offending [] vs = vs.
Proof.
  unfold offending. induction vs as [|v vs IH]; [done|].
  rewrite filter_cons, decide_True by done. by rewrite IH.
Qed.

Lemma filter_not_in_nil (l : list string) : filter (fun col => col ∉ []) l = l.
Proof.
  induction l as [|x l IH]; [done|].
  rewrite filter_cons, decide_True by apply not_elem_of_nil. by rewrite IH.
Qed.

(** X18: the keyword arguments default to the empty list, and with that
    default two checks reject whatever they are given: a whitelist check
    reports every cell of every non-empty target column, and a relevancy
    check reports every column of a frame that has any. *)
Theorem default_arguments_reject_everything pd cols df :
  (Forall (has_column df) cols ->
   forall col, col ∈ cols -> values (column df col) <> [] ->
   exists (found : gmap string (list value)) (reported : list value),
     found !! col = Some reported /\
     (forall v, v ∈ reported <-> v ∈ values (column df col)) /\
     outcome (apply pd (CheckDataValidity_init cols []) df)
     = Exc (ValidDataException "Incorrect values found" (PDictSet found))) /\
  (columns df <> [] ->
   outcome (apply pd (CheckDataRelevancy cols []) df)
   = Exc (DataException "Columns with irrelevant information found"
            (PList (column_names df)))).
Proof.
  split.
  - intros Hcols col Hcol Hne.
    exists (collect_columns [] df cols ∅).
    destruct (collect_columns_spec [] df cols ∅ col) as [Hsome Hin].
    rewrite offending_nil in Hsome. setoid_rewrite offending_nil in Hin.
    destruct (proj2 Hsome) as [reported Hlook].
    { right. split; [done|]. destruct (values (column df col)) as [|v vs]; [done|].
      exists v. apply list_elem_of_here. }
    exists reported. split; [done|]. split.
    + intros v. specialize (Hin v). rewrite Hlook, lookup_empty in Hin.
      cbn in Hin. rewrite Hin. split; [|by auto].
      intros [H%not_elem_of_nil|[_ H]]; done.
    + unfold CheckDataValidity_init. cbn [apply].
      unfold run_method, CheckDataValidity_apply, bind at 1.
      rewrite for_each_validity by done. unfold bind, get_issues. cbn.
      rewrite bool_decide_eq_true_2; [done|].
      intros E. rewrite E, lookup_empty in Hlook. discriminate.
  - intros Hne. cbn [apply].
    unfold run_method, CheckDataRelevancy_apply, bind at 1, get_columns.
    unfold bind.
    rewrite (for_acc_pure (fun col => bool_decide (col ∉ []))).
    cbn [app frame].
    rewrite (list_filter_iff _ (fun col : string => col ∉ []))
      by (intros; apply bool_decide_eq_true).
    rewrite filter_not_in_nil. unfold column_names.
    destruct (columns df) as [|a l]; [done|]. done.
Qed.

Lemma default_arguments_reject_everything_witness :
  let df := mkDataFrame 1 [("a", int_column [1]); ("b", int_column [2])] in
  outcome (apply iso_dates (CheckDataRelevancy [] []) df)
  = Exc (DataException "Columns with irrelevant information found" (PList ["a"; "b"])) /\
  exists (found : gmap string (list value)) (reported : list value),
    found !! "a" = Some reported /\
    (forall v, v ∈ reported <-> v = VInt 1) /\
    outcome (apply iso_dates (CheckDataValidity_init ["a"] []) df)
    = Exc (ValidDataException "Incorrect values found" (PDictSet found)).
Proof.
  intros df. split.
  - apply (proj2 (default_arguments_reject_everything iso_dates [] df)). done.
  - destruct (proj1 (default_arguments_reject_everything iso_dates ["a"] df)
                ltac:(repeat constructor; by eexists) "a")
      as (found & reported & Hlook & Hin & Hout).
    + apply list_elem_of_here.
    + done.
    + exists found, reported. split; [done|]. split; [|done].
      intros v. rewrite Hin. apply list_elem_of_singleton.
Defined.

(** ** Printing a data source *)

Lemma Check_repr_forget c : Check_repr (forget_issues c) = Check_repr c.
Proof. by destruct c. Qed.

Lemma check_reprs_ext (h1 h2 : ObjStore) refs :
  (forall r, forget_issues <$> h1 !! r = forget_issues <$> h2 !! r) ->
  check_reprs h1 refs = check_reprs h2 refs.
Proof.
  intros Hext. induction refs as [|r refs IH]; [done|]. cbn [check_reprs].
  rewrite IH. specialize (Hext r).
  destruct (h1 !! r) as [c1|], (h2 !! r) as [c2|]; try done.
  cbn in Hext |- *. injection Hext as Hext.
  by rewrite <- (Check_repr_forget c1), Hext, Check_repr_forget.
Qed.

(** X19: a data source prints the same before and after [check_data],
    whatever the run did: the text depends on the name of the source and on
    the classes of the attached checks, and a run changes neither. *)
Theorem check_data_keeps_repr pd (h : ObjStore) ds run :
  check_data pd h ds = Some run ->
  DataSource_repr (store' run) ds = DataSource_repr h ds.
Proof.
  intros Hrun. unfold DataSource_repr.
  rewrite (check_reprs_ext (store' run) h); [done|].
  intros r. eapply run_checks_forget, Hrun.
Qed.

Lemma check_data_keeps_repr_witness :
  let h : ObjStore := {[ 1%nat := CheckTimeStamps ["t"];
                         2%nat := CheckGibberrish_init ["t"] [VStr "??"] ]} in
  let ds := mkDataSource "bikes" (mkDataFrame 1 [("t", text_column ["??"])]) [1; 2; 1]%nat in
  exists run, check_data date_reader h ds = Some run /\
    DataSource_repr (store' run) ds
    = Some "<DS: bikes with Checks: CheckTimeStamps | CheckGibberrish | CheckTimeStamps>".
Proof.
  intros h ds. eexists. split; [by vm_compute|].
  rewrite (check_data_keeps_repr date_reader h ds); by vm_compute.
Defined.
